(** * Winnowing fingerprints and Jaccard similarity of [app.py]

    A shallow embedding of the plagiarism-detection core of the Flask
    application: [winnowing_fingerprint], [compare_documents] and the pair
    loop of [detect_plagiarism], together with the library functions they
    call ([str.lower], [re.sub], [str.strip], [str.replace], slicing,
    [range], [hashlib.sha256], [min], [set]); and of the table [hasil_cek]
    with the handlers that read and delete it ([save_result_to_db],
    [get_history], [get_history_doc], [delete_session]). [extract_text]
    only hands a PDF to an external library and is not modelled.

    Conventions of the model:
    - a Python [str] is a [string]; its characters are the code points
      0..255 (Latin-1), which contains every character class the code
      distinguishes (ASCII letters, whitespace, the rest);
    - a Python [int] is a [Z]; the request's [k] and [window_size] are
      taken to be ints and every entry of [documents] to have both keys
      [name] and [text];
    - a Python exception is a value [Raise e] of the type [result];
    - a Python [set] of strings is a [gset string];
    - a Python [float] is the rational number it denotes (a [Q]);
      [compare_documents_f64] rounds to binary64 as the code does
      ([f64_round]), [compare_documents] keeps the exact value of
      the expression, before rounding;
    - the table [hasil_cek] holds ids as unbounded [Z]; SQLite's limit of
      2^63 - 1 on a rowid is stated where a property depends on it;
    - the [print] calls of the source write to the console only and are
      left out. *)

From Stdlib Require Import ZArith NArith QArith Ascii String List Sorted Lia Lqa.
From Stdlib Require Import Permutation DecimalString Qround Qpower Qabs.
From Stdlib Require Import Init.Byte.
From stdpp Require Import base decidable list gmap strings.
Import ListNotations.

Local Open Scope string_scope.
Local Open Scope list_scope.
Local Open Scope Z_scope.

(** ** [hashlib.sha256]: FIPS 180-4 on 32-bit words *)

Module SHA256.
Local Open Scope N_scope.

Definition wrap32 (x : N) : N := N.land x 0xffffffff.
Definition add32 (x y : N) : N := wrap32 (x + y).
Definition rotr (n x : N) : N :=
  wrap32 (N.lor (N.shiftr x n) (N.shiftl x (32 - n))).
Definition shr (n x : N) : N := N.shiftr x n.
Definition not32 (x : N) : N := N.lxor x 0xffffffff.

Definition Ch (x y z : N) : N := N.lxor (N.land x y) (N.land (not32 x) z).
Definition Maj (x y z : N) : N :=
  N.lxor (N.lxor (N.land x y) (N.land x z)) (N.land y z).
Definition bsig0 (x : N) : N := N.lxor (N.lxor (rotr 2 x) (rotr 13 x)) (rotr 22 x).
Definition bsig1 (x : N) : N := N.lxor (N.lxor (rotr 6 x) (rotr 11 x)) (rotr 25 x).
Definition ssig0 (x : N) : N := N.lxor (N.lxor (rotr 7 x) (rotr 18 x)) (shr 3 x).
Definition ssig1 (x : N) : N := N.lxor (N.lxor (rotr 17 x) (rotr 19 x)) (shr 10 x).

(** The round constants, indexed by the round. *)
Definition K (t : nat) : N :=
  match t with
  | 0%nat => 0x428a2f98 | 1%nat => 0x71374491 | 2%nat => 0xb5c0fbcf | 3%nat => 0xe9b5dba5
  | 4%nat => 0x3956c25b | 5%nat => 0x59f111f1 | 6%nat => 0x923f82a4 | 7%nat => 0xab1c5ed5
  | 8%nat => 0xd807aa98 | 9%nat => 0x12835b01 | 10%nat => 0x243185be | 11%nat => 0x550c7dc3
  | 12%nat => 0x72be5d74 | 13%nat => 0x80deb1fe | 14%nat => 0x9bdc06a7 | 15%nat => 0xc19bf174
  | 16%nat => 0xe49b69c1 | 17%nat => 0xefbe4786 | 18%nat => 0x0fc19dc6 | 19%nat => 0x240ca1cc
  | 20%nat => 0x2de92c6f | 21%nat => 0x4a7484aa | 22%nat => 0x5cb0a9dc | 23%nat => 0x76f988da
  | 24%nat => 0x983e5152 | 25%nat => 0xa831c66d | 26%nat => 0xb00327c8 | 27%nat => 0xbf597fc7
  | 28%nat => 0xc6e00bf3 | 29%nat => 0xd5a79147 | 30%nat => 0x06ca6351 | 31%nat => 0x14292967
  | 32%nat => 0x27b70a85 | 33%nat => 0x2e1b2138 | 34%nat => 0x4d2c6dfc | 35%nat => 0x53380d13
  | 36%nat => 0x650a7354 | 37%nat => 0x766a0abb | 38%nat => 0x81c2c92e | 39%nat => 0x92722c85
  | 40%nat => 0xa2bfe8a1 | 41%nat => 0xa81a664b | 42%nat => 0xc24b8b70 | 43%nat => 0xc76c51a3
  | 44%nat => 0xd192e819 | 45%nat => 0xd6990624 | 46%nat => 0xf40e3585 | 47%nat => 0x106aa070
  | 48%nat => 0x19a4c116 | 49%nat => 0x1e376c08 | 50%nat => 0x2748774c | 51%nat => 0x34b0bcb5
  | 52%nat => 0x391c0cb3 | 53%nat => 0x4ed8aa4a | 54%nat => 0x5b9cca4f | 55%nat => 0x682e6ff3
  | 56%nat => 0x748f82ee | 57%nat => 0x78a5636f | 58%nat => 0x84c87814 | 59%nat => 0x8cc70208
  | 60%nat => 0x90befffa | 61%nat => 0xa4506ceb | 62%nat => 0xbef9a3f7 | 63%nat => 0xc67178f2
  | _ => 0
  end.

(** The eight chaining words. *)
Record regs : Type := Regs
  { ra : N; rb : N; rc : N; rd : N; re : N; rf : N; rg : N; rh : N }.

Definition init : regs :=
  Regs 0x6a09e667 0xbb67ae85 0x3c6ef372 0xa54ff53a
       0x510e527f 0x9b05688c 0x1f83d9ab 0x5be0cd19.

(** Padding: the byte 0x80, zero bytes up to 56 modulo 64, then the bit
    length as a 64-bit big-endian number. *)
Fixpoint be_bytes (n : nat) (x : N) : list N :=
  match n with
  | O => []
  | S n' => N.land (N.shiftr x (8 * N.of_nat n')) 0xff :: be_bytes n' x
  end.

Definition pad (msg : list N) : list N :=
  let len := N.of_nat (length msg) in
  let zeros := Z.to_nat ((55 - Z.of_N len) mod 64)%Z in
  msg ++ [0x80] ++ repeat 0 zeros ++ be_bytes 8 (8 * len).

Fixpoint be_words (fuel : nat) (bs : list N) : list N :=
  match fuel, bs with
  | S fuel', b0 :: b1 :: b2 :: b3 :: rest =>
      (N.shiftl b0 24 + N.shiftl b1 16 + N.shiftl b2 8 + b3) :: be_words fuel' rest
  | _, _ => []
  end.

(** The message schedule, most recent word first. *)
Fixpoint schedule_rev (n : nat) (ws : list N) : list N :=
  match n with
  | O => ws
  | S n' =>
      let w := add32 (add32 (ssig1 (nth 1 ws 0)) (nth 6 ws 0))
                     (add32 (ssig0 (nth 14 ws 0)) (nth 15 ws 0)) in
      schedule_rev n' (w :: ws)
  end.

Definition schedule (block : list N) : list N :=
  rev (schedule_rev 48 (rev block)).

Definition round (s : regs) (tw : nat * N) : regs :=
  let t1 := add32 (add32 (add32 (rh s) (bsig1 (re s)))
                         (add32 (Ch (re s) (rf s) (rg s)) (K (fst tw))))
                  (snd tw) in
  let t2 := add32 (bsig0 (ra s)) (Maj (ra s) (rb s) (rc s)) in
  Regs (add32 t1 t2) (ra s) (rb s) (rc s) (add32 (rd s) t1) (re s) (rf s) (rg s).

Definition compress (s : regs) (block : list N) : regs :=
  let ws := schedule block in
  let s' := fold_left round (combine (seq 0 64) ws) s in
  Regs (add32 (ra s) (ra s')) (add32 (rb s) (rb s')) (add32 (rc s) (rc s'))
       (add32 (rd s) (rd s')) (add32 (re s) (re s')) (add32 (rf s) (rf s'))
       (add32 (rg s) (rg s')) (add32 (rh s) (rh s')).

Fixpoint blocks (fuel : nat) (ws : list N) (s : regs) : regs :=
  match fuel with
  | O => s
  | S fuel' =>
      match ws with
      | [] => s
      | _ => blocks fuel' (skipn 16 ws) (compress s (firstn 16 ws))
      end
  end.

Definition digest (msg : list byte) : list N :=
  let bs := pad (map Byte.to_N msg) in
  let ws := be_words (length bs) bs in
  let s := blocks (length ws) ws init in
  [ra s; rb s; rc s; rd s; re s; rf s; rg s; rh s].

(** Lower-case hexadecimal, as [hexdigest] prints it. *)
Definition hex_digit (d : N) : ascii :=
  if d <? 10 then ascii_of_N (48 + d) else ascii_of_N (87 + d).

Fixpoint hex_word (n : nat) (x : N) : string :=
  match n with
  | O => EmptyString
  | S n' => String (hex_digit (N.land (N.shiftr x (4 * N.of_nat n')) 0xf)) (hex_word n' x)
  end.

Definition hexdigest (msg : list byte) : string :=
  fold_right (fun w acc => String.append (hex_word 8 w) acc) EmptyString (digest msg).
End SHA256.

(** ** Python values: exceptions, characters, strings, slices *)

(** The exceptions the modelled code can raise: [min] of an empty
    sequence, a division by zero, a list index out of range. *)
Inductive exn : Type := ValueError | ZeroDivisionError | IndexError.

Inductive result (A : Type) : Type :=
| Ok (a : A)
| Raise (e : exn).
Arguments Ok {A} a.
Arguments Raise {A} e.

Definition rbind {A B : Type} (m : result A) (f : A -> result B) : result B :=
  match m with
  | Ok a => f a
  | Raise e => Raise e
  end.

Notation "'let!' x ':=' m 'in' k" := (rbind m (fun x => k))
  (at level 10, x name, m at level 100, k at level 200).

Definition len {A : Type} (l : list A) : Z := Z.of_nat (length l).

(** [range(n)] and [range(a, b)]. *)
Definition py_range2 (a b : Z) : list Z :=
  map (fun x => a + Z.of_nat x) (seq 0 (Z.to_nat (b - a))).
Definition py_range (n : Z) : list Z := py_range2 0 n.

(** [l[i:j]]: a negative bound counts from the end, and both bounds are
    clipped to [0, len(l)]; an empty or inverted range gives the empty list. *)
Definition slice_bound (n x : Z) : Z :=
  if x <? 0 then Z.max 0 (x + n) else Z.min x n.

Definition py_slice {A : Type} (l : list A) (i j : Z) : list A :=
  let a := slice_bound (len l) i in
  let b := slice_bound (len l) j in
  firstn (Z.to_nat (b - a)) (skipn (Z.to_nat a) l).

(** [l[i]] for a list. *)
Definition py_getitem {A : Type} (l : list A) (i : Z) : result A :=
  let i' := if i <? 0 then i + len l else i in
  if (i' <? 0) || (len l <=? i') then Raise IndexError
  else match nth_error l (Z.to_nat i') with
       | Some x => Ok x
       | None => Raise IndexError
       end.

Definition code (c : ascii) : N := N_of_ascii c.

(** [a-z] of the regular expression. *)
Definition is_az (c : ascii) : bool := ((97 <=? code c) && (code c <=? 122))%N.

(** [\s] on [str] patterns, which is also what [str.strip] removes: tab,
    line feed, vertical tab, form feed, carriage return, the separators
    0x1c..0x1f, space, NEL and the no-break space. *)
Definition isspace (c : ascii) : bool :=
  (((9 <=? code c) && (code c <=? 13)) || ((28 <=? code c) && (code c <=? 32))
   || (code c =? 133) || (code c =? 160))%N.

(** [str.lower] on one character: A-Z and the upper-case letters of the
    Latin-1 supplement (0xc0..0xde without the multiplication sign) move
    up by 32. *)
Definition lower_char (c : ascii) : ascii :=
  if (((65 <=? code c) && (code c <=? 90))
      || ((192 <=? code c) && (code c <=? 222) && negb (code c =? 215)))%N
  then ascii_of_N (code c + 32) else c.

Definition str_lower (s : list ascii) : list ascii := map lower_char s.

(** [re.sub(r'[^a-z\s]', '', text)]. *)
Definition re_sub_non_letters (s : list ascii) : list ascii :=
  List.filter (fun c => is_az c || isspace c) s.

(** [re.sub(r'\s+', ' ', text)]: every maximal run of whitespace becomes
    one space. [in_run] tells that the previous character was whitespace. *)
Fixpoint re_sub_spaces_from (in_run : bool) (s : list ascii) : list ascii :=
  match s with
  | [] => []
  | c :: s' =>
      if isspace c
      then (if in_run then re_sub_spaces_from true s'
            else " "%char :: re_sub_spaces_from true s')
      else c :: re_sub_spaces_from false s'
  end.
Definition re_sub_spaces (s : list ascii) : list ascii := re_sub_spaces_from false s.

(** [str.strip()]. *)
Fixpoint str_lstrip (s : list ascii) : list ascii :=
  match s with
  | [] => []
  | c :: s' => if isspace c then str_lstrip s' else s
  end.
Definition str_rstrip (s : list ascii) : list ascii := rev (str_lstrip (rev s)).
Definition str_strip (s : list ascii) : list ascii := str_rstrip (str_lstrip s).

(** [text.replace(' ', '')]. *)
Definition str_remove_spaces (s : list ascii) : list ascii :=
  List.filter (fun c => negb (Ascii.eqb c " "%char)) s.

(** [str.encode('utf-8')] for code points below 256: one byte below 128,
    two bytes from 128 on. *)
Definition encode_char (c : ascii) : list byte :=
  if (code c <? 128)%N then [byte_of_ascii c]
  else match Byte.of_N (N.lor 0xc0 (N.shiftr (code c) 6)),
             Byte.of_N (N.lor 0x80 (N.land (code c) 0x3f)) with
       | Some b1, Some b2 => [b1; b2]
       | _, _ => []
       end.
Definition encode_utf8 (s : list ascii) : list byte := flat_map encode_char s.

Definition sha256_hexdigest (s : list ascii) : string :=
  SHA256.hexdigest (encode_utf8 s).

(** [min] of a list of strings: the first element that no later element
    is below, in the lexicographic order of the code points. *)
Definition py_min (l : list string) : result string :=
  match l with
  | [] => Raise ValueError
  | x :: xs => Ok (fold_left (fun m y => if String.ltb y m then y else m) xs x)
  end.

(** ** [winnowing_fingerprint] *)

Definition text_for_shingles (text : string) : list ascii :=
  let text := str_lower (list_ascii_of_string text) in
  let text := re_sub_non_letters text in
  let text := str_strip (re_sub_spaces text) in
  str_remove_spaces text.

Definition shingles_of (s : list ascii) (k : Z) : list (list ascii) :=
  map (fun i => py_slice s i (i + k)) (py_range (len s - k + 1)).

Definition hashes_of (shingles : list (list ascii)) : list string :=
  map sha256_hexdigest shingles.

(** The loop over the windows, appending one minimum per window. *)
Fixpoint winnow_loop (hashes : list string) (window_size : Z)
    (offsets : list Z) (fingerprints : list string) : result (list string) :=
  match offsets with
  | [] => Ok fingerprints
  | i :: rest =>
      let window := py_slice hashes i (i + window_size) in
      let! min_hash := py_min window in
      winnow_loop hashes window_size rest (fingerprints ++ [min_hash])
  end.

Definition winnowing_fingerprint (text : string) (k window_size : Z)
    : result (list string) :=
  let s := text_for_shingles text in
  if len s <? k then Ok []
  else
    let hashes := hashes_of (shingles_of s k) in
    winnow_loop hashes window_size (py_range (len hashes - window_size + 1)) [].

(** ** [compare_documents] *)

(** [a / b] on two lengths, as the exact quotient: the value before it is
    rounded to a float ([f64_truediv] below gives the float). *)
Definition py_truediv (a b : nat) : result Q :=
  if Nat.eqb b 0 then Raise ZeroDivisionError
  else Ok (Qdiv (inject_Z (Z.of_nat a)) (inject_Z (Z.of_nat b))).

(** [compare_documents] with the exact value of
    [len(common) / len(union) * 100]; [compare_documents_f64] below gives
    the float the code returns. Guard, exceptions and the results 0 and
    100 are the same in both. *)
Definition compare_documents (doc1 doc2 : string) (k window_size : Z) : result Q :=
  let! f1 := winnowing_fingerprint doc1 k window_size in
  let! f2 := winnowing_fingerprint doc2 k window_size in
  let set_f1 : gset string := list_to_set f1 in
  let set_f2 : gset string := list_to_set f2 in
  let common_fingerprints := set_f1 ∩ set_f2 in
  let union_fingerprints := set_f1 ∪ set_f2 in
  if bool_decide (set_f1 = ∅) || bool_decide (set_f2 = ∅) then Ok 0%Q
  else
    let! ratio := py_truediv (size common_fingerprints) (size union_fingerprints) in
    Ok (Qmult ratio 100).

(** ** [detect_plagiarism]: the pair loop and the table [hasil_cek] *)

(** An entry of the request's [documents] list. *)
Record document : Type := Document { doc_name : string; doc_text : string }.

(** The dictionary appended to [similarities]. *)
Record pair_result : Type := PairResult
  { doc1_index : Z; doc2_index : Z;
    doc1_name : string; doc2_name : string;
    similarity : Q; session_id : string }.

(** A row of [hasil_cek], as [save_result_to_db] inserts it (the columns
    [id] and [checked_at] are filled in by SQLite and are not modelled). *)
Record row : Type := Row
  { row_session_id : string;
    row_doc1_name : string; row_doc2_name : string;
    row_doc1_text : string; row_doc2_text : string;
    row_similarity : Q }.

(** The table is the list of its rows in insertion order. Every insert is
    committed at once, so an exception keeps the rows written before it. *)
Definition db : Type := list row.
Definition M (A : Type) : Type := db -> result A * db.

Definition mret {A : Type} (a : A) : M A := fun d => (Ok a, d).
Definition mbind {A B : Type} (m : M A) (f : A -> M B) : M B :=
  fun d => match m d with
           | (Ok a, d') => f a d'
           | (Raise e, d') => (Raise e, d')
           end.
Definition lift {A : Type} (r : result A) : M A := fun d => (r, d).

Notation "'do!' x ':=' m 'in' k" := (mbind m (fun x => k))
  (at level 10, x name, m at level 100, k at level 200).

Definition save_result_to_db (session_id doc1_name doc2_name doc1_text doc2_text : string)
    (similarity : Q) : M unit :=
  fun d => (Ok tt, d ++ [Row session_id doc1_name doc2_name doc1_text doc2_text similarity]).

(** The body of [for j in range(i + 1, len(documents))]. *)
Fixpoint loop_j (session_id : string) (documents : list document) (k window_size : Z)
    (i : Z) (js : list Z) (similarities : list pair_result) : M (list pair_result) :=
  match js with
  | [] => mret similarities
  | j :: js' =>
      do! doc1 := lift (py_getitem documents i) in
      do! doc2 := lift (py_getitem documents j) in
      do! similarity :=
        lift (compare_documents (doc_text doc1) (doc_text doc2) k window_size) in
      let result :=
        PairResult i j (doc_name doc1) (doc_name doc2) similarity session_id in
      let similarities := similarities ++ [result] in
      do! _ := save_result_to_db session_id (doc_name doc1) (doc_name doc2)
                 (doc_text doc1) (doc_text doc2) similarity in
      loop_j session_id documents k window_size i js' similarities
  end.

(** The body of [for i in range(len(documents))]. *)
Fixpoint loop_i (session_id : string) (documents : list document) (k window_size : Z)
    (ixs : list Z) (similarities : list pair_result) : M (list pair_result) :=
  match ixs with
  | [] => mret similarities
  | i :: ixs' =>
      do! similarities :=
        loop_j session_id documents k window_size i
               (py_range2 (i + 1) (len documents)) similarities in
      loop_i session_id documents k window_size ixs' similarities
  end.

(** [session_id] is the time stamp the handler reads from the clock; the
    result is the list sent back under the key [similarities]. *)
Definition detect_plagiarism (session_id : string) (documents : list document)
    (k window_size : Z) : M (list pair_result) :=
  loop_i session_id documents k window_size (py_range (len documents)) [].

(** * Notions used in the statements *)

(** A character that is not whitespace. *)
Definition nonspace (c : ascii) : bool := negb (isspace c).

(** The value [min] returns on a non-empty list. *)
Definition min_step (m y : string) : string := if String.ltb y m then y else m.

Definition window_min (l : list string) : string :=
  match l with
  | [] => EmptyString
  | x :: xs => fold_left min_step xs x
  end.

(** The shingle at offset [j] and its hash, written with [firstn] and [skipn]. *)
Definition shingle_at (s : list ascii) (k : Z) (j : nat) : list ascii :=
  firstn (Z.to_nat k) (skipn j s).
Definition hash_at (s : list ascii) (k : Z) (j : nat) : string :=
  sha256_hexdigest (shingle_at s k j).

(** The similarity of the specification: the Jaccard index as a percentage. *)
Definition jaccard_percent (F1 F2 : gset string) : Q :=
  Qdiv (Qmult 100 (inject_Z (Z.of_nat (size (F1 ∩ F2)))))
       (inject_Z (Z.of_nat (size (F1 ∪ F2)))).

(** The other case of a letter, for the letters that have one among the
    code points of the model ([str.swapcase] on one character). *)
Definition swapcase (c : ascii) : ascii :=
  if (((65 <=? code c) && (code c <=? 90))
      || ((192 <=? code c) && (code c <=? 222) && negb (code c =? 215)))%N
  then ascii_of_N (code c + 32)
  else if (((97 <=? code c) && (code c <=? 122))
           || ((224 <=? code c) && (code c <=? 254) && negb (code c =? 247)))%N
  then ascii_of_N (code c - 32)
  else c.

(** The ASCII punctuation characters ([string.punctuation]). *)
Definition is_punctuation (c : ascii) : bool :=
  (((33 <=? code c) && (code c <=? 47)) || ((58 <=? code c) && (code c <=? 64))
   || ((91 <=? code c) && (code c <=? 96)) || ((123 <=? code c) && (code c <=? 126)))%N.

(** [variant t t']: [t'] is [t] with the case of some letters changed and
    punctuation or whitespace characters inserted or removed. *)
Inductive variant : list ascii -> list ascii -> Prop :=
| variant_nil : variant [] []
| variant_same (c : ascii) (t t' : list ascii) :
    variant t t' -> variant (c :: t) (c :: t')
| variant_case (c : ascii) (t t' : list ascii) :
    variant t t' -> variant (c :: t) (swapcase c :: t')
| variant_insert (c : ascii) (t t' : list ascii) :
    is_punctuation c || isspace c = true -> variant t t' -> variant t (c :: t')
| variant_remove (c : ascii) (t t' : list ascii) :
    is_punctuation c || isspace c = true -> variant t t' -> variant (c :: t) t'.

(** What the loop appends for the pair (i, j) when the comparison returns. *)
Definition doc_at (documents : list document) (i : Z) : document :=
  nth (Z.to_nat i) documents (Document "" "").

Definition sim_at (documents : list document) (k w i j : Z) : Q :=
  match compare_documents (doc_text (doc_at documents i))
                          (doc_text (doc_at documents j)) k w with
  | Ok q => q
  | Raise _ => 0%Q
  end.

Definition result_at (sid : string) (documents : list document) (k w i j : Z)
    : pair_result :=
  PairResult i j (doc_name (doc_at documents i)) (doc_name (doc_at documents j))
             (sim_at documents k w i j) sid.

Definition row_at (sid : string) (documents : list document) (k w i j : Z) : row :=
  Row sid (doc_name (doc_at documents i)) (doc_name (doc_at documents j))
      (doc_text (doc_at documents i)) (doc_text (doc_at documents j))
      (sim_at documents k w i j).

(** The row written for a result: its names and similarity and the texts
    of its two documents. *)
Definition row_of_result (documents : list document) (r : pair_result) : row :=
  Row (session_id r) (doc1_name r) (doc2_name r)
      (doc_text (doc_at documents (doc1_index r)))
      (doc_text (doc_at documents (doc2_index r)))
      (similarity r).

(** The index pairs of a result list, and their ascending order. *)
Definition index_pair (r : pair_result) : Z * Z := (doc1_index r, doc2_index r).

Definition lex_lt (a b : Z * Z) : Prop :=
  fst a < fst b \/ (fst a = fst b /\ snd a < snd b).

(** All pairs (i, j) with i taken from [ixs] and i < j < n. *)
Definition pairs_from (n : Z) (ixs : list Z) : list (Z * Z) :=
  flat_map (fun i => map (pair i) (py_range2 (i + 1) n)) ixs.

(** The two nested loops as one loop over the list of pairs (i, j). *)
Fixpoint loop_pairs (session_id : string) (documents : list document) (k window_size : Z)
    (ps : list (Z * Z)) (similarities : list pair_result) : M (list pair_result) :=
  match ps with
  | [] => mret similarities
  | (i, j) :: ps' =>
      do! doc1 := lift (py_getitem documents i) in
      do! doc2 := lift (py_getitem documents j) in
      do! similarity :=
        lift (compare_documents (doc_text doc1) (doc_text doc2) k window_size) in
      let result :=
        PairResult i j (doc_name doc1) (doc_name doc2) similarity session_id in
      let similarities := similarities ++ [result] in
      do! _ := save_result_to_db session_id (doc_name doc1) (doc_name doc2)
                 (doc_text doc1) (doc_text doc2) similarity in
      loop_pairs session_id documents k window_size ps' similarities
  end.

(** ** The table [hasil_cek] in SQLite and the history handlers *)

(** A JSON value, as [jsonify] receives it: the handlers answer with a
    value and a status code (200 when the source gives none). *)
Unset Elimination Schemes.
Inductive json : Type :=
| JStr (s : string)
| JInt (z : Z)
| JReal (q : Q)
| JList (l : list json)
| JObj (fields : list (string * json)).
Set Elimination Schemes.

(** A stored row: the six inserted columns with the two columns SQLite
    fills in, [id INTEGER PRIMARY KEY AUTOINCREMENT] and
    [checked_at TIMESTAMP DEFAULT CURRENT_TIMESTAMP]. *)
Record stored_row : Type := StoredRow
  { sr_id : Z; sr_row : row; sr_checked_at : string }.

(** The table: its rows, and the largest id ever handed out, which
    AUTOINCREMENT keeps in [sqlite_sequence] across deletions. *)
Record table : Type := Table { t_rows : list stored_row; t_seq : Z }.

(** [init_db]: [CREATE TABLE IF NOT EXISTS] makes an empty table when
    there is none and leaves an existing one alone. *)
Definition init_db (t : option table) : table :=
  match t with
  | Some t => t
  | None => Table [] 0
  end.

Definition max_id (rows : list stored_row) : Z :=
  fold_right (fun r m => Z.max (sr_id r) m) 0 rows.

(** The [INSERT] of [save_result_to_db] on the table: the new id is one
    more than the largest id in the table or ever handed out; [clock]
    gives the value of CURRENT_TIMESTAMP when the row with that id is
    written. Ids are unbounded here: SQLite keeps rowids below 2^63 and
    refuses the insert once 2^63 - 1 has been handed out, which this
    function does not describe. *)
Definition sql_insert (clock : Z -> string) (r : row) (t : table) : table :=
  let id := Z.max (max_id (t_rows t)) (t_seq t) + 1 in
  Table (t_rows t ++ [StoredRow id r (clock id)]) id.

(** The rows a request has written, inserted one after the other. *)
Definition store_rows (clock : Z -> string) (written : list row) (t : table) : table :=
  fold_left (fun t r => sql_insert clock r t) written t.

(** [detect_plagiarism] against the table: the rows it writes, in the
    order of its calls of [save_result_to_db], are inserted into [t]. *)
Definition handle_plagiarism (clock : Z -> string) (session_id : string)
    (documents : list document) (k window_size : Z) (t : table)
    : result (list pair_result) * table :=
  match detect_plagiarism session_id documents k window_size [] with
  | (res, written) => (res, store_rows clock written t)
  end.

(** [get_history_doc]: the check of [doc_type], then
    [SELECT ... WHERE id = ?] with [fetchone]. The [except] branch, which
    answers 500 when the query raises, is not described: the query raises
    for a [doc_id] outside the 64-bit INTEGER of SQLite (from 2^63 on),
    which no stored row has, and when SQLite itself fails. *)
Definition get_history_doc (t : table) (doc_id : Z) (doc_type : string) : json * Z :=
  if negb (String.eqb doc_type "doc1" || String.eqb doc_type "doc2")
  then (JObj [("error", JStr "Tipe dokumen harus doc1 atau doc2")], 400)
  else
    match List.find (fun r => sr_id r =? doc_id) (t_rows t) with
    | None => (JObj [("error", JStr "Dokumen tidak ditemukan")], 404)
    | Some row =>
        let result :=
          if String.eqb doc_type "doc1"
          then JObj [("id", JInt (sr_id row));
                     ("name", JStr (row_doc1_name (sr_row row)));
                     ("text", JStr (row_doc1_text (sr_row row)))]
          else JObj [("id", JInt (sr_id row));
                     ("name", JStr (row_doc2_name (sr_row row)));
                     ("text", JStr (row_doc2_text (sr_row row)))] in
        (JObj [("dokumen", result)], 200)
    end.

(** A row of the session [session_id]. *)
Definition in_session (session_id : string) (r : stored_row) : bool :=
  String.eqb (row_session_id (sr_row r)) session_id.

(** An int in an f-string. *)
Definition str_of_nat (n : nat) : string :=
  DecimalString.NilZero.string_of_uint (Nat.to_uint n).

(** [delete_session]: [DELETE ... WHERE session_id = ?]; [rowcount] is
    the number of rows deleted. *)
Definition delete_session (t : table) (session_id : string) : (json * Z) * table :=
  let deleted := length (List.filter (in_session session_id) (t_rows t)) in
  let t' := Table (List.filter (fun r => negb (in_session session_id r)) (t_rows t))
                  (t_seq t) in
  if Nat.eqb deleted 0
  then ((JObj [("message", JStr "Tidak ada data dengan session_id tersebut")], 404), t')
  else ((JObj [("message",
                JStr (String.append (str_of_nat deleted)
                        (String.append " data dari session "
                           (String.append session_id " berhasil dihapus"))))], 200), t').

(** [SELECT * FROM hasil_cek ORDER BY checked_at DESC]: [fetchall] gives
    the rows of the table in some order in which [checked_at] descends;
    SQL leaves the order of rows with equal time stamps open. *)
Definition checked_at_desc (a b : stored_row) : Prop :=
  String.leb (sr_checked_at b) (sr_checked_at a) = true.

Definition fetched_by_checked_at_desc (t : table) (rows : list stored_row) : Prop :=
  Permutation (t_rows t) rows /\ StronglySorted checked_at_desc rows.

(** The dictionary appended to a session's [results]. *)
Definition history_result (r : stored_row) : json :=
  JObj [("id", JInt (sr_id r));
        ("doc1_name", JStr (row_doc1_name (sr_row r)));
        ("doc2_name", JStr (row_doc2_name (sr_row r)));
        ("similarity", JReal (row_similarity (sr_row r)))].

(** A value of the dictionary [sessions]. *)
Record session_entry : Type := SessionEntry
  { se_session_id : string; se_checked_at : string; se_results : list json }.

(** [sessions] keeps its keys in insertion order: an association list
    with the membership test and the in-place update used by the loop. *)
Definition dict_mem (key : string) (sessions : list (string * session_entry)) : bool :=
  existsb (fun p => String.eqb (fst p) key) sessions.

Fixpoint dict_adjust (f : session_entry -> session_entry) (key : string)
    (sessions : list (string * session_entry)) : list (string * session_entry) :=
  match sessions with
  | [] => []
  | (k, v) :: rest =>
      if String.eqb k key then (k, f v) :: rest
      else (k, v) :: dict_adjust f key rest
  end.

Definition append_result (r : stored_row) (e : session_entry) : session_entry :=
  SessionEntry (se_session_id e) (se_checked_at e) (se_results e ++ [history_result r]).

(** The loop [for row in rows] of [get_history]. *)
Fixpoint group_rows (rows : list stored_row) (sessions : list (string * session_entry))
    : list (string * session_entry) :=
  match rows with
  | [] => sessions
  | row :: rest =>
      let session_id := row_session_id (sr_row row) in
      let sessions :=
        if dict_mem session_id sessions then sessions
        else sessions ++ [(session_id, SessionEntry session_id (sr_checked_at row) [])] in
      group_rows rest (dict_adjust (append_result row) session_id sessions)
  end.

(** [history.sort(key=lambda x: x['session_id'], reverse=True)]: a stable
    sort into descending order of the keys (entries with equal keys keep
    their order), written as an insertion sort. *)
Fixpoint insert_desc (e : session_entry) (l : list session_entry) : list session_entry :=
  match l with
  | [] => [e]
  | x :: l' =>
      if String.ltb (se_session_id e) (se_session_id x) then x :: insert_desc e l'
      else e :: l
  end.

Definition sort_desc (l : list session_entry) : list session_entry :=
  fold_right insert_desc [] l.

(** The list [history] for the fetched rows, and the answer of the handler. *)
Definition history_of (rows : list stored_row) : list session_entry :=
  sort_desc (map snd (group_rows rows [])).

Definition entry_json (e : session_entry) : json :=
  JObj [("session_id", JStr (se_session_id e));
        ("checked_at", JStr (se_checked_at e));
        ("results", JList (se_results e))].

Definition get_history_of (rows : list stored_row) : json * Z :=
  (JObj [("history", JList (map entry_json (history_of rows)))], 200).

(** The rows of a session among [rows], and the invariant of the table:
    ids are distinct, positive and not above the recorded largest id. *)
Definition rows_of (session_id : string) (rows : list stored_row) : list stored_row :=
  List.filter (in_session session_id) rows.

Definition table_ok (t : table) : Prop :=
  List.NoDup (map sr_id (t_rows t)) /\
  (forall r, In r (t_rows t) -> 1 <= sr_id r <= t_seq t).

(** The tables the handlers can produce from a fresh database. *)
Inductive reachable (clock : Z -> string) : table -> Prop :=
| reachable_init : reachable clock (init_db None)
| reachable_insert (r : row) (t : table) :
    reachable clock t -> reachable clock (sql_insert clock r t)
| reachable_delete (session_id : string) (t : table) :
    reachable clock t -> reachable clock (snd (delete_session t session_id)).

(** The state of the grouping loop after the rows [seen]: the keys are
    distinct, every session met has an entry, and an entry holds the
    results of its rows in the order met and the time stamp of the first. *)
Definition entry_ok (seen : list stored_row) (p : string * session_entry) : Prop :=
  se_session_id (snd p) = fst p /\
  se_results (snd p) = map history_result (rows_of (fst p) seen) /\
  exists r rest, rows_of (fst p) seen = r :: rest /\
                 se_checked_at (snd p) = sr_checked_at r.

Definition group_inv (seen : list stored_row) (sessions : list (string * session_entry))
    : Prop :=
  List.NoDup (map fst sessions) /\
  (forall p, In p sessions -> entry_ok seen p) /\
  (forall r, In r seen -> In (row_session_id (sr_row r)) (map fst sessions)).

(** Descending order of the session ids, weak and strict. *)
Definition session_desc (a b : session_entry) : Prop :=
  String.leb (se_session_id b) (se_session_id a) = true.

Definition session_strictly_desc (a b : session_entry) : Prop :=
  String.ltb (se_session_id b) (se_session_id a) = true.

(** ** The arithmetic of [compare_documents] in binary64 *)

(** Python computes [len(common) / len(union) * 100] on floats: the
    quotient of the two ints is rounded to the nearest binary64 number,
    and so is its product with 100. A float is represented here by the
    rational number it denotes; [f64_round] is the rounding to nearest,
    ties to even, with 53 significant bits, gradual underflow below
    2^-1022 and the smallest spacing 2^-1074. It is meant for arguments
    below 2^1024 in absolute value, where binary64 does not overflow. *)
Definition pow2 (z : Z) : Q := Qpower 2 z.

(** The [e] with 2^e <= x < 2^(e+1), for a positive [x]. *)
Definition binade (x : Q) : Z :=
  let e0 := Z.log2 (Qnum x) - Z.log2 (Zpos (Qden x)) in
  if Qle_bool (pow2 e0) x then e0 else e0 - 1.

(** The exponent of the spacing of the binary64 numbers around [x]. *)
Definition qexp (x : Q) : Z := Z.max (binade x - 52) (-1074).

(** The nearest integer, ties to the even one. *)
Definition round_half_even (s : Q) : Z :=
  let fl := Qfloor s in
  match Qcompare (s - inject_Z fl) (1 # 2) with
  | Lt => fl
  | Gt => fl + 1
  | Eq => if Z.even fl then fl else fl + 1
  end.

Definition f64_round_pos (x : Q) : Q :=
  Qred (inject_Z (round_half_even (x * pow2 (- qexp x))) * pow2 (qexp x)).

Definition f64_round (x : Q) : Q :=
  match Qcompare x 0 with
  | Eq => 0
  | Gt => f64_round_pos x
  | Lt => - f64_round_pos (- x)
  end.

(** [a / b] on two lengths, as a float. *)
Definition f64_truediv (a b : nat) : result Q :=
  if Nat.eqb b 0 then Raise ZeroDivisionError
  else Ok (f64_round (Qdiv (inject_Z (Z.of_nat a)) (inject_Z (Z.of_nat b)))).

(** [compare_documents] with the float it returns: [compare_documents]
    above gives the same guard and the same exceptions and, for the
    similarity, the exact value of the expression. *)
Definition compare_documents_f64 (doc1 doc2 : string) (k window_size : Z) : result Q :=
  let! f1 := winnowing_fingerprint doc1 k window_size in
  let! f2 := winnowing_fingerprint doc2 k window_size in
  let set_f1 : gset string := list_to_set f1 in
  let set_f2 : gset string := list_to_set f2 in
  let common_fingerprints := set_f1 ∩ set_f2 in
  let union_fingerprints := set_f1 ∪ set_f2 in
  if bool_decide (set_f1 = ∅) || bool_decide (set_f2 = ∅) then Ok 0%Q
  else
    let! ratio := f64_truediv (size common_fingerprints) (size union_fingerprints) in
    Ok (f64_round (Qmult ratio 100)).

(** * Properties *)

(** ** The hash function *)

(** Known answers of the hash (FIPS 180-4 test vectors, one and two blocks). *)
Example sha256_empty :
  SHA256.hexdigest [] =
  "e3b0c44298fc1c149afbf4c8996fb92427ae41e4649b934ca495991b7852b855".
Proof. vm_compute. reflexivity. Qed.

Example sha256_abc :
  SHA256.hexdigest (list_byte_of_string "abc") =
  "ba7816bf8f01cfea414140de5dae2223b00361a396177a9cb410ff61f20015ad".
Proof. vm_compute. reflexivity. Qed.

Example sha256_two_blocks :
  SHA256.hexdigest
    (list_byte_of_string "abcdbcdecdefdefgefghfghighijhijkijkljklmklmnlmnomnopnopq") =
  "248d6a61d20638b8e5c026930c3e6039a33ce45964ff2167f6ecedd419db06c1".
Proof. vm_compute. reflexivity. Qed.

(** ** Ranges and slices *)

Lemma len_nonneg {A : Type} (l : list A) : 0 <= len l.
Proof. unfold len. lia. Qed.

Lemma py_range2_length (a b : Z) : length (py_range2 a b) = Z.to_nat (b - a).
Proof. unfold py_range2. now rewrite length_map, length_seq. Qed.

Lemma py_range2_In (a b i : Z) : In i (py_range2 a b) <-> a <= i < b.
Proof.
  unfold py_range2. rewrite in_map_iff. split.
  - intros (x & <- & Hx). apply in_seq in Hx. lia.
  - intros Hi. exists (Z.to_nat (i - a)). split; [lia|]. apply in_seq. lia.
Qed.

Lemma py_range_nat (n : Z) : py_range n = map Z.of_nat (seq 0 (Z.to_nat n)).
Proof.
  unfold py_range, py_range2. rewrite Z.sub_0_r. apply map_ext. intros x. lia.
Qed.

Lemma py_range_In (n i : Z) : In i (py_range n) <-> 0 <= i < n.
Proof. apply py_range2_In. Qed.

(** Inside the list a slice is [firstn] after [skipn]. *)
Lemma py_slice_inside {A : Type} (l : list A) (i n : Z) :
  0 <= i -> 0 <= n -> i + n <= len l ->
  py_slice l i (i + n) = firstn (Z.to_nat n) (skipn (Z.to_nat i) l).
Proof.
  intros Hi Hn Hlen. unfold py_slice, slice_bound.
  destruct (Z.ltb_spec i 0); [lia|]. destruct (Z.ltb_spec (i + n) 0); [lia|].
  rewrite !Z.min_l by lia. f_equal. lia.
Qed.

Lemma py_slice_inside_length {A : Type} (l : list A) (i n : Z) :
  0 <= i -> 0 <= n -> i + n <= len l ->
  length (py_slice l i (i + n)) = Z.to_nat n.
Proof.
  intros Hi Hn Hlen. rewrite py_slice_inside by assumption.
  rewrite length_firstn, length_skipn. unfold len in Hlen. lia.
Qed.

(** A slice that stops at offset 0 is empty. *)
Lemma py_slice_to_zero {A : Type} (l : list A) (i : Z) :
  0 <= i -> py_slice l i 0 = [].
Proof.
  intros Hi. unfold py_slice, slice_bound.
  destruct (Z.ltb_spec i 0); [lia|]. destruct (Z.ltb_spec 0 0); [lia|].
  pose proof (len_nonneg l).
  replace (Z.to_nat (Z.min 0 (len l) - Z.min i (len l))) with 0%nat by lia.
  reflexivity.
Qed.

(** ** Characters *)

Lemma space_isspace : isspace " "%char = true.
Proof. reflexivity. Qed.

Lemma is_az_not_space (c : ascii) : is_az c = true -> isspace c = false.
Proof.
  unfold is_az, isspace. generalize (code c). intros n Hn.
  repeat match goal with
         | |- context [N.leb ?a ?b] => destruct (N.leb_spec a b)
         | |- context [N.eqb ?a ?b] => destruct (N.eqb_spec a b)
         | H : context [N.leb ?a ?b] |- _ => destruct (N.leb_spec a b)
         end; simpl in *; try reflexivity; try discriminate; lia.
Qed.

(** Lower-casing is idempotent and never produces an upper-case letter. *)
Lemma lower_char_idem (c : ascii) : lower_char (lower_char c) = lower_char c.
Proof. destruct c as [[] [] [] [] [] [] [] []]; reflexivity. Qed.

(** ** Normalisation: the dense string is the letters of the lowered text *)

Lemma nonspace_space : nonspace " "%char = false.
Proof. reflexivity. Qed.

Lemma re_sub_spaces_from_letters (b : bool) (s : list ascii) :
  List.filter nonspace (re_sub_spaces_from b s) = List.filter nonspace s.
Proof.
  revert b. induction s as [|c s IH]; intros b; [reflexivity|].
  cbn [re_sub_spaces_from]. destruct (isspace c) eqn:Hc.
  - assert (Hn : nonspace c = false) by (unfold nonspace; now rewrite Hc).
    destruct b; cbn [List.filter]; rewrite Hn; [apply IH|].
    rewrite nonspace_space. apply IH.
  - assert (Hn : nonspace c = true) by (unfold nonspace; now rewrite Hc).
    cbn [List.filter]. rewrite Hn. f_equal. apply IH.
Qed.

Lemma re_sub_spaces_from_only_space (b : bool) (s : list ascii) (c : ascii) :
  In c (re_sub_spaces_from b s) -> isspace c = false \/ c = " "%char.
Proof.
  revert b. induction s as [|x s IH]; intros b; simpl; [tauto|].
  destruct (isspace x) eqn:Hx.
  - destruct b; simpl; [apply IH|]. intros [<-|H]; [now right|]. now apply IH in H.
  - simpl. intros [<-|H]; [now left|]. now apply IH in H.
Qed.

Lemma str_lstrip_letters (s : list ascii) :
  List.filter nonspace (str_lstrip s) = List.filter nonspace s.
Proof.
  induction s as [|c s IH]; [reflexivity|].
  cbn [str_lstrip]. destruct (isspace c) eqn:Hc; [|reflexivity].
  cbn [List.filter]. unfold nonspace at 2. now rewrite Hc.
Qed.

Lemma str_lstrip_In (s : list ascii) (c : ascii) : In c (str_lstrip s) -> In c s.
Proof.
  induction s as [|x s IH]; simpl; [tauto|].
  destruct (isspace x); simpl; tauto.
Qed.

Lemma filter_rev_comm {A : Type} (f : A -> bool) (l : list A) :
  List.filter f (rev l) = rev (List.filter f l).
Proof.
  induction l as [|x l IH]; simpl; [reflexivity|].
  rewrite List.filter_app, IH. simpl. destruct (f x); simpl; [reflexivity|].
  now rewrite app_nil_r.
Qed.

Lemma str_strip_letters (s : list ascii) :
  List.filter nonspace (str_strip s) = List.filter nonspace s.
Proof.
  unfold str_strip, str_rstrip.
  rewrite filter_rev_comm, str_lstrip_letters, filter_rev_comm, rev_involutive.
  apply str_lstrip_letters.
Qed.

Lemma str_strip_In (s : list ascii) (c : ascii) : In c (str_strip s) -> In c s.
Proof.
  unfold str_strip, str_rstrip. intros H.
  apply in_rev, str_lstrip_In, in_rev in H. now apply str_lstrip_In.
Qed.

Lemma str_remove_spaces_letters (s : list ascii) :
  (forall c, In c s -> isspace c = false \/ c = " "%char) ->
  str_remove_spaces s = List.filter nonspace s.
Proof.
  intros Hs. unfold str_remove_spaces. apply filter_ext_in. intros c Hc.
  unfold nonspace. destruct (Hs c Hc) as [H| ->]; [|reflexivity].
  rewrite H. destruct (Ascii.eqb_spec c " "%char) as [->|]; [|reflexivity].
  now rewrite space_isspace in H.
Qed.

Lemma filter_letters_of_kept (s : list ascii) :
  List.filter nonspace (re_sub_non_letters s) = List.filter is_az s.
Proof.
  unfold re_sub_non_letters. induction s as [|c s IH]; [reflexivity|].
  cbn [List.filter]. destruct (is_az c) eqn:Haz.
  - cbn [orb List.filter]. unfold nonspace at 1.
    rewrite (is_az_not_space c Haz). cbn [negb]. now f_equal.
  - cbn [orb]. destruct (isspace c) eqn:Hsp; [|exact IH].
    cbn [List.filter]. unfold nonspace at 1. rewrite Hsp. exact IH.
Qed.

(** The four normalisation steps leave exactly the letters a-z of the
    lower-cased text, in their order. *)
Lemma text_for_shingles_letters (text : string) :
  text_for_shingles text =
  List.filter is_az (str_lower (list_ascii_of_string text)).
Proof.
  unfold text_for_shingles, re_sub_spaces.
  rewrite str_remove_spaces_letters.
  - now rewrite str_strip_letters, re_sub_spaces_from_letters, filter_letters_of_kept.
  - intros c Hc. apply str_strip_In in Hc.
    now apply re_sub_spaces_from_only_space in Hc.
Qed.

(** ** The order used by [min] *)

Lemma ascii_compare_refl (c : ascii) : Ascii.compare c c = Eq.
Proof. apply N.compare_refl. Qed.

Lemma ascii_compare_lt_trans (a b c : ascii) :
  Ascii.compare a b = Lt -> Ascii.compare b c = Lt -> Ascii.compare a c = Lt.
Proof. unfold Ascii.compare. rewrite !N.compare_lt_iff. lia. Qed.

Lemma string_compare_lt_trans (a b c : string) :
  String.compare a b = Lt -> String.compare b c = Lt -> String.compare a c = Lt.
Proof.
  revert b c. induction a as [|x a IH]; intros [|y b] [|z c]; simpl;
    try discriminate; try reflexivity.
  destruct (Ascii.compare x y) eqn:Hxy; try discriminate;
    destruct (Ascii.compare y z) eqn:Hyz; try discriminate; intros Hab Hbc.
  - apply Ascii.compare_eq_iff in Hxy, Hyz. subst.
    rewrite ascii_compare_refl. eauto.
  - apply Ascii.compare_eq_iff in Hxy. subst. now rewrite Hyz.
  - apply Ascii.compare_eq_iff in Hyz. subst. now rewrite Hxy.
  - now rewrite (ascii_compare_lt_trans x y z).
Qed.

Lemma string_leb_cases (a b : string) :
  String.leb a b = true <-> String.compare a b = Lt \/ a = b.
Proof.
  unfold String.leb. split.
  - destruct (String.compare a b) eqn:H; try discriminate; intros _; [right|left].
    + now apply String.compare_eq_iff. + reflexivity.
  - intros [->| ->]; [reflexivity|].
    replace (String.compare b b) with Eq; [reflexivity|].
    symmetry. induction b as [|c b IH]; simpl; [reflexivity|].
    now rewrite ascii_compare_refl.
Qed.

Lemma string_leb_refl (a : string) : String.leb a a = true.
Proof. apply string_leb_cases. now right. Qed.

Lemma string_leb_trans (a b c : string) :
  String.leb a b = true -> String.leb b c = true -> String.leb a c = true.
Proof.
  rewrite !string_leb_cases. intros [Hab| ->] [Hbc| ->]; auto.
  left. eapply string_compare_lt_trans; eassumption.
Qed.

Lemma string_ltb_leb (a b : string) : String.ltb a b = true -> String.leb a b = true.
Proof.
  unfold String.ltb, String.leb. now destruct (String.compare a b).
Qed.

Lemma string_not_ltb_leb (a b : string) : String.ltb a b = false -> String.leb b a = true.
Proof.
  unfold String.ltb, String.leb. rewrite (String.compare_antisym b a).
  now destruct (String.compare a b).
Qed.

Lemma py_min_nonempty (l : list string) : l <> [] -> py_min l = Ok (window_min l).
Proof. destruct l; [congruence|reflexivity]. Qed.

Lemma fold_min_spec (xs : list string) (m : string) :
  let r := fold_left min_step xs m in
  (r = m \/ In r xs) /\ String.leb r m = true /\
  (forall y, In y xs -> String.leb r y = true).
Proof.
  revert m. induction xs as [|x xs IH]; intros m; cbn zeta; cbn [fold_left].
  - split; [now left|]. split; [apply string_leb_refl|]. intros y [].
  - destruct (IH (min_step m x)) as (Hin & Hle & Hall).
    assert (Hm : String.leb (min_step m x) m = true).
    { unfold min_step. destruct (String.ltb x m) eqn:E;
        [now apply string_ltb_leb | apply string_leb_refl]. }
    assert (Hx : String.leb (min_step m x) x = true).
    { unfold min_step. destruct (String.ltb x m) eqn:E;
        [apply string_leb_refl | now apply string_not_ltb_leb]. }
    split; [|split].
    + destruct Hin as [Hr|Hr]; [|right; now right].
      rewrite Hr. unfold min_step. destruct (String.ltb x m); [right; now left|now left].
    + eapply string_leb_trans; eassumption.
    + intros y [<-|Hy]; [eapply string_leb_trans; eassumption|now apply Hall].
Qed.

(** [min] returns an element of the list that is below every element. *)
Lemma window_min_spec (l : list string) :
  l <> [] ->
  In (window_min l) l /\ (forall y, In y l -> String.leb (window_min l) y = true).
Proof.
  destruct l as [|x xs]; [congruence|]. intros _. cbn [window_min].
  destruct (fold_min_spec xs x) as (Hin & Hle & Hall). split.
  - destruct Hin as [->|H]; [now left|now right].
  - intros y [<-|Hy]; [exact Hle|now apply Hall].
Qed.

(** ** The window loop *)

Lemma winnow_loop_ok (hashes : list string) (w : Z) (offsets : list Z)
    (acc : list string) :
  (forall i, In i offsets -> py_slice hashes i (i + w) <> []) ->
  winnow_loop hashes w offsets acc =
  Ok (acc ++ map (fun i => window_min (py_slice hashes i (i + w))) offsets).
Proof.
  revert acc. induction offsets as [|i rest IH]; intros acc Hne; cbn [winnow_loop map].
  - now rewrite app_nil_r.
  - rewrite py_min_nonempty by (apply Hne; now left). cbn [rbind].
    rewrite IH by (intros j Hj; apply Hne; now right).
    now rewrite <- app_assoc.
Qed.

Lemma winnow_loop_raise (hashes : list string) (w : Z) (offsets : list Z)
    (acc : list string) :
  (exists i, In i offsets /\ py_slice hashes i (i + w) = []) ->
  winnow_loop hashes w offsets acc = Raise ValueError.
Proof.
  revert acc. induction offsets as [|i rest IH]; intros acc (j & Hj & Hempty).
  - destruct Hj.
  - cbn [winnow_loop]. destruct (py_slice hashes i (i + w)) as [|x xs] eqn:Hwin.
    + reflexivity.
    + cbn [py_min rbind]. apply IH. exists j. split; [|exact Hempty].
      destruct Hj as [->|Hj]; [congruence|exact Hj].
Qed.

(** The loop raises nothing but [ValueError]. *)
Lemma winnow_loop_exn (hashes : list string) (w : Z) (offsets : list Z)
    (acc : list string) (e : exn) :
  winnow_loop hashes w offsets acc = Raise e -> e = ValueError.
Proof.
  revert acc. induction offsets as [|i rest IH]; intros acc; cbn [winnow_loop].
  - discriminate.
  - destruct (py_slice hashes i (i + w)) as [|x xs]; cbn [py_min rbind].
    + congruence.
    + apply IH.
Qed.

Lemma winnowing_fingerprint_exn (text : string) (k w : Z) (e : exn) :
  winnowing_fingerprint text k w = Raise e -> e = ValueError.
Proof.
  unfold winnowing_fingerprint. destruct (len (text_for_shingles text) <? k).
  - discriminate.
  - apply winnow_loop_exn.
Qed.

(** ** Shingles and their hashes *)

Lemma shingles_of_spec (s : list ascii) (k : Z) :
  0 <= k <= len s ->
  shingles_of s k = map (shingle_at s k) (seq 0 (Z.to_nat (len s - k + 1))).
Proof.
  intros Hk. unfold shingles_of. rewrite py_range_nat, map_map.
  apply map_ext_in. intros j Hj. apply in_seq in Hj.
  rewrite py_slice_inside by lia. unfold shingle_at. now rewrite Nat2Z.id.
Qed.

Lemma hashes_of_spec (s : list ascii) (k : Z) :
  0 <= k <= len s ->
  hashes_of (shingles_of s k) = map (hash_at s k) (seq 0 (Z.to_nat (len s - k + 1))).
Proof.
  intros Hk. unfold hashes_of. now rewrite shingles_of_spec, map_map.
Qed.

(** A window of the hash sequence, when it fits. *)
Lemma window_of_map {A : Type} (h : nat -> A) (n i w : nat) :
  (i + w <= n)%nat ->
  firstn w (skipn i (map h (seq 0 n))) = map h (seq i w).
Proof.
  intros Hfit. rewrite skipn_map, firstn_map, drop_seq, take_seq.
  do 2 f_equal. lia.
Qed.

(** With a window size of at least 1 no window is empty, so the loop ends
    normally with one minimum per window. *)
Lemma winnow_windows_ok (hashes : list string) (w : Z) :
  1 <= w ->
  winnow_loop hashes w (py_range (len hashes - w + 1)) [] =
  Ok (map (fun i => window_min (firstn (Z.to_nat w) (skipn i hashes)))
          (seq 0 (Z.to_nat (len hashes - w + 1)))).
Proof.
  intros Hw. rewrite winnow_loop_ok.
  - cbn [app]. f_equal. rewrite py_range_nat, map_map.
    apply map_ext_in. intros i Hi. apply in_seq in Hi.
    rewrite py_slice_inside by lia. now rewrite Nat2Z.id.
  - intros i Hi. apply py_range_In in Hi. intros Hempty.
    assert (Hlen : length (py_slice hashes i (i + w)) = Z.to_nat w)
      by (apply py_slice_inside_length; lia).
    rewrite Hempty in Hlen. cbn [length] in Hlen. lia.
Qed.

Lemma winnowing_fingerprint_returns (text : string) (k w : Z) :
  1 <= w -> exists fps, winnowing_fingerprint text k w = Ok fps.
Proof.
  intros Hw. unfold winnowing_fingerprint.
  destruct (len (text_for_shingles text) <? k); [now exists []|].
  rewrite winnow_windows_ok by exact Hw. eauto.
Qed.

(** With a window size below 1 the window at offset [-w] is empty and
    [min] raises. *)
Lemma winnow_windows_raise (hashes : list string) (w : Z) :
  w < 1 ->
  winnow_loop hashes w (py_range (len hashes - w + 1)) [] = Raise ValueError.
Proof.
  intros Hw. apply winnow_loop_raise. exists (- w). split.
  - apply py_range_In. pose proof (len_nonneg hashes). lia.
  - replace (- w + w) with 0 by lia. apply py_slice_to_zero. lia.
Qed.

Lemma winnowing_fingerprint_short (text : string) (k w : Z) :
  len (text_for_shingles text) < k -> winnowing_fingerprint text k w = Ok [].
Proof.
  intros Hlen. unfold winnowing_fingerprint.
  destruct (Z.ltb_spec (len (text_for_shingles text)) k); [reflexivity|lia].
Qed.

(** The fingerprint list for valid parameters and a text of at least [k]
    letters: the minimum of every window of [w] consecutive shingle hashes. *)
Lemma winnowing_fingerprint_long (text : string) (k w : Z) :
  0 <= k -> 1 <= w ->
  let s := text_for_shingles text in
  k <= len s ->
  winnowing_fingerprint text k w =
  Ok (map (fun i => window_min (map (hash_at s k) (seq i (Z.to_nat w))))
          (seq 0 (Z.to_nat (len s - k + 1 - w + 1)))).
Proof.
  intros Hk Hw s Hlen. unfold winnowing_fingerprint. fold s.
  destruct (Z.ltb_spec (len s) k); [lia|].
  rewrite winnow_windows_ok by exact Hw. rewrite hashes_of_spec by lia.
  set (n := Z.to_nat (len s - k + 1)).
  assert (Hn : len (map (hash_at s k) (seq 0 n)) = len s - k + 1).
  { unfold len at 1. rewrite length_map, length_seq. unfold n. lia. }
  rewrite Hn. f_equal. apply map_ext_in. intros i Hi. apply in_seq in Hi.
  f_equal. apply window_of_map. unfold n. lia.
Qed.

(** ** Sets of fingerprints and the similarity *)

Lemma list_to_set_empty_iff (f : list string) :
  list_to_set f = (∅ : gset string) <-> f = [].
Proof.
  split; [|intros ->; reflexivity].
  destruct f as [|x f]; [reflexivity|]. intros H.
  assert (Hx : x ∈ (list_to_set (x :: f) : gset string)) by set_solver.
  rewrite H in Hx. set_solver.
Qed.

Lemma empty_guard_false (F1 F2 : gset string) :
  bool_decide (F1 = ∅) || bool_decide (F2 = ∅) = false <-> F1 <> ∅ /\ F2 <> ∅.
Proof.
  rewrite orb_false_iff, !bool_decide_eq_false. reflexivity.
Qed.

Lemma empty_guard_true (F1 F2 : gset string) :
  bool_decide (F1 = ∅) || bool_decide (F2 = ∅) = true <-> F1 = ∅ \/ F2 = ∅.
Proof.
  rewrite orb_true_iff, !bool_decide_eq_true. reflexivity.
Qed.

Lemma union_size_pos (F1 F2 : gset string) : F1 <> ∅ -> size (F1 ∪ F2) <> 0%nat.
Proof.
  intros Hne Hsize. apply size_empty_inv in Hsize.
  apply Hne. apply leibniz_equiv. set_solver.
Qed.

(** Once both fingerprint lists are there, the rest of [compare_documents]
    is the guard and, behind it, a division that cannot fail. *)
Lemma compare_documents_sets (doc1 doc2 : string) (k w : Z) (f1 f2 : list string) :
  winnowing_fingerprint doc1 k w = Ok f1 ->
  winnowing_fingerprint doc2 k w = Ok f2 ->
  let F1 : gset string := list_to_set f1 in
  let F2 : gset string := list_to_set f2 in
  compare_documents doc1 doc2 k w =
  if bool_decide (F1 = ∅) || bool_decide (F2 = ∅) then Ok 0%Q
  else Ok (Qmult (Qdiv (inject_Z (Z.of_nat (size (F1 ∩ F2))))
                       (inject_Z (Z.of_nat (size (F1 ∪ F2))))) 100).
Proof.
  intros H1 H2 F1 F2. unfold compare_documents. rewrite H1, H2. cbn [rbind].
  fold F1 F2. destruct (bool_decide (F1 = ∅) || bool_decide (F2 = ∅)) eqn:Hg;
    [reflexivity|].
  apply empty_guard_false in Hg. destruct Hg as [Hne1 _].
  unfold py_truediv. destruct (Nat.eqb_spec (size (F1 ∪ F2)) 0) as [Hz|_].
  - now apply union_size_pos in Hz.
  - reflexivity.
Qed.

(** [compare_documents] raises nothing but the [ValueError] of a
    fingerprint computation. *)
Lemma compare_documents_exn (doc1 doc2 : string) (k w : Z) (e : exn) :
  compare_documents doc1 doc2 k w = Raise e -> e = ValueError.
Proof.
  destruct (winnowing_fingerprint doc1 k w) as [f1|e1] eqn:H1.
  - destruct (winnowing_fingerprint doc2 k w) as [f2|e2] eqn:H2.
    + rewrite (compare_documents_sets _ _ _ _ _ _ H1 H2).
      destruct (_ || _); discriminate.
    + unfold compare_documents. rewrite H1, H2. cbn [rbind].
      intros [= <-]. now apply winnowing_fingerprint_exn in H2.
  - unfold compare_documents. rewrite H1. cbn [rbind].
    intros [= <-]. now apply winnowing_fingerprint_exn in H1.
Qed.

Lemma compare_documents_raise_l (doc1 doc2 : string) (k w : Z) :
  winnowing_fingerprint doc1 k w = Raise ValueError ->
  compare_documents doc1 doc2 k w = Raise ValueError.
Proof. intros H. unfold compare_documents. now rewrite H. Qed.

Lemma compare_documents_raise_r (doc1 doc2 : string) (k w : Z) :
  winnowing_fingerprint doc2 k w = Raise ValueError ->
  compare_documents doc1 doc2 k w = Raise ValueError.
Proof.
  intros H. unfold compare_documents.
  destruct (winnowing_fingerprint doc1 k w) as [f1|e1] eqn:H1; cbn [rbind].
  - now rewrite H.
  - now rewrite (winnowing_fingerprint_exn _ _ _ _ H1).
Qed.

Lemma compare_documents_returns (doc1 doc2 : string) (k w : Z) :
  1 <= w -> exists q, compare_documents doc1 doc2 k w = Ok q.
Proof.
  intros Hw.
  destruct (winnowing_fingerprint_returns doc1 k w Hw) as [f1 H1].
  destruct (winnowing_fingerprint_returns doc2 k w Hw) as [f2 H2].
  rewrite (compare_documents_sets _ _ _ _ _ _ H1 H2).
  destruct (_ || _); eauto.
Qed.

(** ** Claims about the fingerprint operation *)

(** C1. For k >= 1 and window_size w >= 1 the fingerprint operation
    returns, for the n = len(s) - k + 1 shingles of the dense string s
    (none when len(s) < k) and their hashes h[0..n), one value per start
    offset i in 0..=n-w, in that order: the minimum of the window
    h[i..i+w), that is a member of the window which is below every member
    in the lexicographic order of the hexadecimal strings. When n < w the
    result is empty. *)
Theorem C1_winnowing_selects_window_minima (text : string) (k w : Z) :
  1 <= k -> 1 <= w ->
  let s := text_for_shingles text in
  let n := Z.to_nat (len s - k + 1) in
  exists fps,
    winnowing_fingerprint text k w = Ok fps /\
    (forall j, (j < n)%nat -> length (shingle_at s k j) = Z.to_nat k) /\
    length fps = Z.to_nat (Z.of_nat n - w + 1) /\
    (Z.of_nat n < w -> fps = []) /\
    forall i, (i < length fps)%nat ->
      (i + Z.to_nat w <= n)%nat /\
      exists m, nth_error fps i = Some m /\
        (exists j, (i <= j < i + Z.to_nat w)%nat /\ m = hash_at s k j) /\
        (forall j, (i <= j < i + Z.to_nat w)%nat ->
                   String.leb m (hash_at s k j) = true).
Proof.
  intros Hk Hw s n.
  assert (Hshingle : forall j, (j < n)%nat -> length (shingle_at s k j) = Z.to_nat k).
  { intros j Hj. unfold shingle_at. rewrite length_firstn, length_skipn.
    unfold n, len in Hj. lia. }
  destruct (Z.lt_ge_cases (len s) k) as [Hshort|Hlong].
  - exists []. rewrite winnowing_fingerprint_short by exact Hshort.
    assert (Hn : n = 0%nat) by (unfold n; lia).
    split; [reflexivity|]. split; [exact Hshingle|]. split; [cbn; lia|].
    split; [reflexivity|]. cbn. intros i Hi. lia.
  - pose proof (winnowing_fingerprint_long text k w ltac:(lia) Hw Hlong) as Hfp.
    fold s in Hfp. eexists. split; [exact Hfp|].
    assert (Hn : Z.of_nat n = len s - k + 1) by (unfold n; lia).
    split; [exact Hshingle|].
    rewrite length_map, length_seq, Hn.
    split; [reflexivity|]. split.
    { intros Hlt. replace (Z.to_nat (len s - k + 1 - w + 1)) with 0%nat by lia.
      reflexivity. }
    intros i Hi. split; [lia|].
    set (win := map (hash_at s k) (seq i (Z.to_nat w))).
    assert (Hwin : win <> []).
    { intros E. apply (f_equal (@length string)) in E. unfold win in E.
      rewrite length_map, length_seq in E. cbn in E. lia. }
    destruct (window_min_spec win Hwin) as [Hin Hall].
    exists (window_min win). split; [|split].
    + rewrite nth_error_map.
      rewrite (nth_error_nth' _ 0%nat) by (rewrite length_seq; exact Hi).
      rewrite seq_nth by exact Hi. reflexivity.
    + unfold win in Hin. apply in_map_iff in Hin. destruct Hin as (j & Hj & Hjin).
      exists j. apply in_seq in Hjin. split; [lia|now symmetry].
    + intros j Hj. apply Hall. unfold win. apply in_map. apply in_seq. lia.
Qed.

Lemma C1_winnowing_selects_window_minima_witness :
  1 <= 5 /\ 1 <= 4 /\
  exists fps,
    winnowing_fingerprint "the quick brown fox" 5 4 = Ok fps /\
    length fps = 9%nat.
Proof.
  split; [lia|]. split; [lia|].
  destruct (C1_winnowing_selects_window_minima "the quick brown fox" 5 4)
    as (fps & Hfp & _ & Hlen & _); [lia|lia|].
  exists fps. split; [exact Hfp|]. rewrite Hlen. vm_compute. reflexivity.
Defined.

(** C5. A text whose dense form is shorter than k has the empty
    fingerprint list, whatever the window size, and nothing is raised. *)
Theorem C5_short_text_has_no_fingerprint (text : string) (k w : Z) :
  len (text_for_shingles text) < k ->
  winnowing_fingerprint text k w = Ok [].
Proof. apply winnowing_fingerprint_short. Qed.

Lemma C5_short_text_has_no_fingerprint_witness :
  len (text_for_shingles "a, b; c!") < 5 /\
  winnowing_fingerprint "a, b; c!" 5 (-3) = Ok [].
Proof.
  split; [vm_compute; reflexivity|].
  apply C5_short_text_has_no_fingerprint. vm_compute. reflexivity.
Defined.

(** C3 (as stated, refuted). With k = 0 nothing is rejected: every shingle
    is the empty string, the fingerprint list holds the hash of the empty
    string once per window, and two unrelated texts compare as identical.
    With window_size = 0 and texts shorter than k nothing is rejected
    either. *)
Lemma C3_invalid_parameters_are_accepted :
  (0 < 1 \/ 1 < 1) /\
  winnowing_fingerprint "ab" 0 1 =
    Ok ["e3b0c44298fc1c149afbf4c8996fb92427ae41e4649b934ca495991b7852b855";
        "e3b0c44298fc1c149afbf4c8996fb92427ae41e4649b934ca495991b7852b855";
        "e3b0c44298fc1c149afbf4c8996fb92427ae41e4649b934ca495991b7852b855"] /\
  compare_documents "ab" "cd" 0 1 = Ok 100%Q /\
  (5 < 1 \/ 0 < 1) /\
  winnowing_fingerprint "abc" 5 0 = Ok [] /\
  compare_documents "abc" "xyz" 5 0 = Ok 0%Q.
Proof.
  split; [left; lia|]. split; [vm_compute; reflexivity|].
  split; [vm_compute; reflexivity|]. split; [right; lia|].
  split; vm_compute; reflexivity.
Qed.

(** C3 (amended). The parameters are not validated and there is no
    InvalidParameter error. With k < 1 or window_size < 1: when
    window_size >= 1 both operations return normally; when window_size < 1
    and the dense text has at least k letters, [min] of an empty window
    raises ValueError in the fingerprint operation and in every comparison
    the text takes part in; when window_size < 1 and the dense text is
    shorter than k, the fingerprint operation returns the empty list. *)
Theorem C3_parameters_are_not_validated (text other : string) (k w : Z) :
  k < 1 \/ w < 1 ->
  (1 <= w ->
     exists fps q, winnowing_fingerprint text k w = Ok fps /\
                   compare_documents text other k w = Ok q) /\
  (w < 1 -> k <= len (text_for_shingles text) ->
     winnowing_fingerprint text k w = Raise ValueError /\
     compare_documents text other k w = Raise ValueError /\
     compare_documents other text k w = Raise ValueError) /\
  (w < 1 -> len (text_for_shingles text) < k ->
     winnowing_fingerprint text k w = Ok []).
Proof.
  intros _. split; [|split].
  - intros Hw. destruct (winnowing_fingerprint_returns text k w Hw) as [fps Hfp].
    destruct (compare_documents_returns text other k w Hw) as [q Hq]. eauto.
  - intros Hw Hlen.
    assert (Hraise : winnowing_fingerprint text k w = Raise ValueError).
    { unfold winnowing_fingerprint.
      destruct (Z.ltb_spec (len (text_for_shingles text)) k); [lia|].
      now apply winnow_windows_raise. }
    split; [exact Hraise|]. split.
    + now apply compare_documents_raise_l.
    + now apply compare_documents_raise_r.
  - intros _. apply winnowing_fingerprint_short.
Qed.

Lemma C3_parameters_are_not_validated_witness :
  (0 < 1 \/ 1 < 1) /\
  exists fps q, winnowing_fingerprint "ab" 0 1 = Ok fps /\
                compare_documents "ab" "cd" 0 1 = Ok q.
Proof.
  split; [left; lia|].
  destruct (C3_parameters_are_not_validated "ab" "cd" 0 1) as [Hret _];
    [left; lia|].
  apply Hret. lia.
Defined.


(** ** Claims about the comparison *)

Lemma percent_bounds (a b : nat) :
  (a <= b)%nat -> b <> 0%nat ->
  let q := Qmult (Qdiv (inject_Z (Z.of_nat a)) (inject_Z (Z.of_nat b))) 100 in
  Qeq q (Qdiv (Qmult 100 (inject_Z (Z.of_nat a))) (inject_Z (Z.of_nat b))) /\
  Qle 0 q /\ Qle q 100.
Proof.
  intros Hab Hb q. subst q.
  destruct (Z.of_nat b) as [|p|p] eqn:Eb; try lia.
  assert (Ha : 0 <= Z.of_nat a <= Z.pos p) by lia.
  generalize dependent (Z.of_nat a). intros z Hz.
  unfold Qeq, Qle, Qdiv, Qmult, Qinv, inject_Z. cbn.
  rewrite ?Pos.mul_1_r, ?Z.mul_1_r. repeat split; nia.
Qed.

Lemma percent_full (a : nat) :
  a <> 0%nat ->
  Qeq (Qmult (Qdiv (inject_Z (Z.of_nat a)) (inject_Z (Z.of_nat a))) 100) 100.
Proof.
  intros Ha. destruct (Z.of_nat a) as [|p|p] eqn:Ea; try lia.
  unfold Qeq, Qdiv, Qmult, Qinv, inject_Z. cbn.
  rewrite ?Pos.mul_1_r, ?Z.mul_1_r. nia.
Qed.

(** The exact value of the expression of [compare_documents], before any
    rounding: when both fingerprint sets are non-empty it is
    100 * |F1 ∩ F2| / |F1 ∪ F2|, between 0 and 100. *)
Lemma compare_documents_exact_value
    (doc1 doc2 : string) (k w : Z) (f1 f2 : list string) :
  winnowing_fingerprint doc1 k w = Ok f1 ->
  winnowing_fingerprint doc2 k w = Ok f2 ->
  let F1 : gset string := list_to_set f1 in
  let F2 : gset string := list_to_set f2 in
  F1 <> ∅ -> F2 <> ∅ ->
  exists q, compare_documents doc1 doc2 k w = Ok q /\
            Qeq q (jaccard_percent F1 F2) /\ Qle 0 q /\ Qle q 100.
Proof.
  intros H1 H2 F1 F2 Hne1 Hne2.
  rewrite (compare_documents_sets _ _ _ _ _ _ H1 H2). fold F1 F2.
  replace (bool_decide (F1 = ∅) || bool_decide (F2 = ∅)) with false
    by (symmetry; now apply empty_guard_false).
  eexists. split; [reflexivity|]. unfold jaccard_percent.
  apply percent_bounds.
  - apply subseteq_size.
    etrans; [apply intersection_subseteq_l|apply union_subseteq_l].
  - now apply union_size_pos.
Qed.

(** ** The binary64 arithmetic of the similarity *)

(** *** Powers of two and binades *)

Lemma pow2_pos (z : Z) : Qlt 0 (pow2 z).
Proof. apply Qpower_0_lt. reflexivity. Qed.

Lemma pow2_plus (a b : Z) : Qeq (pow2 (a + b)) (Qmult (pow2 a) (pow2 b)).
Proof. apply Qpower_plus. discriminate. Qed.

Lemma pow2_cancel (z : Z) : Qeq (Qmult (pow2 z) (pow2 (- z))) 1.
Proof. rewrite <- pow2_plus, Z.add_opp_diag_r. reflexivity. Qed.

Lemma pow2_le (a b : Z) : a <= b -> Qle (pow2 a) (pow2 b).
Proof. intros H. apply Qpower_le_compat_l; [exact H|discriminate]. Qed.

Lemma pow2_lt_inv (a b : Z) : Qlt (pow2 a) (pow2 b) -> a < b.
Proof. intros H. apply (Qpower_lt_compat_l_inv 2); [exact H|reflexivity]. Qed.

Lemma pow2_Z (a : Z) : 0 <= a -> Qeq (pow2 a) (inject_Z (2 ^ a)).
Proof. intros H. unfold pow2. now rewrite Zpower_Qpower. Qed.

(** Multiplying by a power of two keeps the order. *)
Lemma scale_le (x y : Q) (z : Z) : Qle x y -> Qle (Qmult x (pow2 z)) (Qmult y (pow2 z)).
Proof. intros H. apply Qmult_le_compat_r; [exact H|]. apply Qlt_le_weak, pow2_pos. Qed.

Lemma binade_spec (x : Q) :
  Qlt 0 x -> Qle (pow2 (binade x)) x /\ Qlt x (pow2 (binade x + 1)).
Proof.
  intros Hx. destruct x as [n d]. unfold Qlt in Hx. cbn in Hx.
  assert (Hn : 0 < n) by lia.
  unfold binade. cbn [Qnum Qden].
  set (a := Z.log2 n). set (b := Z.log2 (Z.pos d)).
  destruct (Z.log2_spec n Hn) as [Ha1 Ha2]. fold a in Ha1, Ha2.
  destruct (Z.log2_spec (Z.pos d) ltac:(lia)) as [Hb1 Hb2]. fold b in Hb1, Hb2.
  assert (Ha0 : 0 <= a) by apply Z.log2_nonneg.
  assert (Hb0 : 0 <= b) by apply Z.log2_nonneg.
  (* upper bound for a - b, lower bound for a - b - 1 *)
  assert (Hup : Qlt (n # d) (pow2 (a - b + 1))).
  { apply (Qmult_lt_r _ _ (pow2 b) (pow2_pos b)).
    rewrite <- pow2_plus. replace (a - b + 1 + b) with (Z.succ a) by lia.
    rewrite !pow2_Z by lia. unfold Qlt, Qmult, inject_Z. cbn [Qnum Qden].
    rewrite !Z.mul_1_r, Pos.mul_1_r.
    apply Z.le_lt_trans with (n * Z.pos d).
    - apply Z.mul_le_mono_nonneg_l; lia.
    - apply Z.mul_lt_mono_pos_r; lia. }
  assert (Hlow : Qle (pow2 (a - b - 1)) (n # d)).
  { apply (Qmult_le_r _ _ (pow2 (b + 1)) (pow2_pos _)).
    rewrite <- pow2_plus. replace (a - b - 1 + (b + 1)) with a by lia.
    rewrite !pow2_Z by lia. unfold Qle, Qmult, inject_Z. cbn [Qnum Qden].
    rewrite !Z.mul_1_r, Pos.mul_1_r. replace (b + 1) with (Z.succ b) by lia.
    apply Z.le_trans with (n * Z.pos d).
    - apply Z.mul_le_mono_nonneg_r; lia.
    - apply Z.mul_le_mono_nonneg_l; lia. }
  destruct (Qle_bool (pow2 (a - b)) (n # d)) eqn:Htest.
  - apply Qle_bool_iff in Htest. split; [exact Htest|exact Hup].
  - split; [exact Hlow|].
    replace (a - b - 1 + 1) with (a - b) by lia.
    apply Qnot_le_lt. intros Hle. apply Qle_bool_iff in Hle. congruence.
Qed.

Lemma binade_unique (x : Q) (e : Z) :
  Qle (pow2 e) x -> Qlt x (pow2 (e + 1)) -> binade x = e.
Proof.
  intros Hlo Hhi.
  assert (Hx : Qlt 0 x) by (eapply Qlt_le_trans; [apply (pow2_pos e)|exact Hlo]).
  destruct (binade_spec x Hx) as [Hlo' Hhi'].
  assert (H1 : binade x < e + 1)
    by (apply pow2_lt_inv; eapply Qle_lt_trans; eassumption).
  assert (H2 : e < binade x + 1)
    by (apply pow2_lt_inv; eapply Qle_lt_trans; eassumption).
  lia.
Qed.

Lemma binade_mono (x y : Q) : Qlt 0 x -> Qle x y -> binade x <= binade y.
Proof.
  intros Hx Hxy.
  assert (Hy : Qlt 0 y) by (eapply Qlt_le_trans; eassumption).
  destruct (binade_spec x Hx) as [Hlo _]. destruct (binade_spec y Hy) as [_ Hhi].
  assert (H : binade x < binade y + 1).
  { apply pow2_lt_inv. eapply Qle_lt_trans; [exact Hlo|].
    eapply Qle_lt_trans; eassumption. }
  lia.
Qed.

Lemma qexp_mono (x y : Q) : Qlt 0 x -> Qle x y -> qexp x <= qexp y.
Proof. intros Hx Hxy. unfold qexp. pose proof (binade_mono x y Hx Hxy). lia. Qed.

(** *** Rounding to an integer *)

Lemma Qfloor_bounds (s : Q) :
  Qle (inject_Z (Qfloor s)) s /\ Qlt s (inject_Z (Qfloor s) + 1).
Proof.
  split; [apply Qfloor_le|]. pose proof (Qlt_floor s) as H.
  rewrite inject_Z_plus in H. exact H.
Qed.

Lemma round_half_even_cases (s : Q) :
  round_half_even s = Qfloor s /\ Qle (s - inject_Z (Qfloor s)) (1 # 2) \/
  round_half_even s = Qfloor s + 1 /\ Qle (1 # 2) (s - inject_Z (Qfloor s)).
Proof.
  unfold round_half_even.
  destruct (Qcompare (s - inject_Z (Qfloor s)) (1 # 2)) eqn:Hc.
  - apply Qeq_alt in Hc. destruct (Z.even (Qfloor s)); [left|right];
      (split; [reflexivity|rewrite Hc; apply Qle_refl]).
  - apply Qlt_alt in Hc. left. split; [reflexivity|now apply Qlt_le_weak].
  - apply Qgt_alt in Hc. right. split; [reflexivity|now apply Qlt_le_weak].
Qed.

Lemma round_half_even_near (s : Q) :
  Qle (Qabs (inject_Z (round_half_even s) - s)) (1 # 2).
Proof.
  destruct (Qfloor_bounds s) as [Hlo Hhi]. apply Qabs_Qle_condition.
  destruct (round_half_even_cases s) as [[-> H]|[-> H]];
    rewrite ?inject_Z_plus; change (inject_Z 1) with 1%Q; split; lra.
Qed.

Lemma round_half_even_le (s : Q) (m : Z) :
  Qle s (inject_Z m) -> round_half_even s <= m.
Proof.
  intros Hs. destruct (Qfloor_bounds s) as [Hlo Hhi].
  assert (Hfl : Qfloor s <= m) by (rewrite Zle_Qle; lra).
  destruct (round_half_even_cases s) as [[-> H]|[-> H]]; [exact Hfl|].
  assert (Hlt : Qfloor s < m) by (rewrite Zlt_Qlt; lra). lia.
Qed.

Lemma round_half_even_ge (s : Q) (m : Z) :
  Qle (inject_Z m) s -> m <= round_half_even s.
Proof.
  intros Hs. destruct (Qfloor_bounds s) as [Hlo Hhi].
  assert (Hfl : m < Qfloor s + 1)
    by (rewrite Zlt_Qlt, inject_Z_plus; change (inject_Z 1) with 1%Q; lra).
  destruct (round_half_even_cases s) as [[-> H]|[-> H]]; lia.
Qed.

Lemma round_half_even_comp (s t : Q) : Qeq s t -> round_half_even s = round_half_even t.
Proof.
  intros E. unfold round_half_even. rewrite (Qfloor_comp _ _ E).
  assert (Hc : Qcompare (s - inject_Z (Qfloor t)) (1 # 2) =
               Qcompare (t - inject_Z (Qfloor t)) (1 # 2))
    by (apply Qcompare_comp; [rewrite E|]; reflexivity).
  now rewrite Hc.
Qed.

(** *** Rounding to binary64 *)

Lemma f64_round_pos_value (x : Q) :
  Qeq (f64_round_pos x)
      (inject_Z (round_half_even (x * pow2 (- qexp x))) * pow2 (qexp x)).
Proof. unfold f64_round_pos. apply Qred_correct. Qed.

Lemma unscale (x : Q) (z : Z) : Qeq (x * pow2 (- z) * pow2 z) x.
Proof.
  rewrite <- Qmult_assoc, (Qmult_comm (pow2 (- z))), pow2_cancel. apply Qmult_1_r.
Qed.

(** The rounding error is at most half the spacing. *)
Lemma f64_round_pos_error (x : Q) :
  Qle (Qabs (f64_round_pos x - x)) (pow2 (qexp x) * (1 # 2)).
Proof.
  rewrite f64_round_pos_value. set (e := qexp x).
  set (r := inject_Z (round_half_even (x * pow2 (- e)))).
  assert (E : Qeq (r * pow2 e - x) ((r - x * pow2 (- e)) * pow2 e)).
  { transitivity (r * pow2 e - x * pow2 (- e) * pow2 e)%Q; [|ring].
    apply Qplus_comp; [reflexivity|]. apply Qopp_comp. symmetry. apply unscale. }
  rewrite E.
  rewrite Qabs_Qmult, (Qabs_pos (pow2 e)) by apply Qlt_le_weak, pow2_pos.
  rewrite (Qmult_comm (pow2 e)).
  apply Qmult_le_compat_r; [apply round_half_even_near|].
  apply Qlt_le_weak, pow2_pos.
Qed.

(** A number of the grid of [x], or of a coarser one, bounds the rounded
    value as it bounds [x]. *)
Lemma grid_point (m j e : Z) :
  e <= j -> Qeq (inject_Z m * pow2 j * pow2 (- e)) (inject_Z (m * 2 ^ (j - e))).
Proof.
  intros H. rewrite <- Qmult_assoc, <- pow2_plus.
  replace (j + - e) with (j - e) by lia.
  rewrite pow2_Z by lia. now rewrite inject_Z_mult.
Qed.

Lemma f64_round_pos_le_grid (x c : Q) (m j : Z) :
  Qle x c -> Qeq c (inject_Z m * pow2 j) -> qexp x <= j ->
  Qle (f64_round_pos x) c.
Proof.
  intros Hxc Hc Hj. rewrite f64_round_pos_value. set (e := qexp x) in *.
  assert (Hs : Qle (x * pow2 (- e)) (inject_Z (m * 2 ^ (j - e)))).
  { rewrite <- grid_point by exact Hj. rewrite <- Hc. now apply scale_le. }
  apply round_half_even_le in Hs. rewrite Zle_Qle in Hs.
  apply (scale_le _ _ e) in Hs.
  eapply Qle_trans; [exact Hs|].
  rewrite <- grid_point by exact Hj. rewrite unscale, Hc. apply Qle_refl.
Qed.

Lemma f64_round_pos_ge_grid (x c : Q) (m j : Z) :
  Qle c x -> Qeq c (inject_Z m * pow2 j) -> qexp x <= j ->
  Qle c (f64_round_pos x).
Proof.
  intros Hxc Hc Hj. rewrite f64_round_pos_value. set (e := qexp x) in *.
  assert (Hs : Qle (inject_Z (m * 2 ^ (j - e))) (x * pow2 (- e))).
  { rewrite <- grid_point by exact Hj. rewrite <- Hc. now apply scale_le. }
  apply round_half_even_ge in Hs. rewrite Zle_Qle in Hs.
  apply (scale_le _ _ e) in Hs.
  eapply Qle_trans; [|exact Hs].
  rewrite <- grid_point by exact Hj. rewrite unscale, Hc. apply Qle_refl.
Qed.

Lemma f64_round_pos_nonneg (x : Q) : Qle 0 x -> Qle 0 (f64_round_pos x).
Proof.
  intros Hx. apply (f64_round_pos_ge_grid x 0 0 (qexp x)); [exact Hx| |lia].
  now rewrite Qmult_0_l.
Qed.

Lemma f64_round_nonneg (x : Q) : Qle 0 x -> Qle 0 (f64_round x).
Proof.
  intros Hx. unfold f64_round. destruct (Qcompare x 0) eqn:Hc.
  - apply Qle_refl.
  - apply Qlt_alt in Hc. lra.
  - now apply f64_round_pos_nonneg.
Qed.

Lemma f64_round_comp (x y : Q) : Qeq x y -> f64_round x = f64_round y.
Proof.
  assert (Hpos : forall u v, Qlt 0 u -> Qeq u v -> f64_round_pos u = f64_round_pos v).
  { intros u v Hu E. unfold f64_round_pos.
    assert (Hb : binade v = binade u).
    { destruct (binade_spec u Hu) as [Hlo Hhi].
      apply binade_unique; lra. }
    assert (Hq : qexp v = qexp u) by (unfold qexp; now rewrite Hb).
    rewrite Hq. apply Qred_complete.
    rewrite (round_half_even_comp (u * pow2 (- qexp u)) (v * pow2 (- qexp u)))
      by (apply Qmult_comp; [exact E|reflexivity]).
    reflexivity. }
  intros E. unfold f64_round. rewrite <- (Qcompare_comp x y E 0%Q 0%Q (Qeq_refl 0)).
  destruct (Qcompare x 0) eqn:Hc.
  - reflexivity.
  - apply Qlt_alt in Hc. f_equal. apply Hpos; [lra|apply Qopp_comp, E].
  - apply Qgt_alt in Hc. now apply Hpos.
Qed.

Lemma f64_round_zero (x : Q) : Qeq x 0 -> f64_round x = 0%Q.
Proof. intros E. now rewrite (f64_round_comp x 0 E). Qed.

Lemma f64_round_positive (x : Q) : Qlt 0 x -> f64_round x = f64_round_pos x.
Proof.
  intros Hx. unfold f64_round. apply Qgt_alt in Hx. now rewrite Hx.
Qed.

(** Rounding a number of [[0, c]], [c] a binary64 number: the result is in
    [[0, c]] and the error at most half the spacing at [c]. *)
Lemma f64_round_below (x c : Q) (m : Z) :
  Qle 0 x -> Qle x c -> Qeq c (inject_Z m * pow2 (qexp c)) ->
  Qle 0 (f64_round x) /\ Qle (f64_round x) c /\
  Qle (Qabs (f64_round x - x)) (pow2 (qexp c) * (1 # 2)).
Proof.
  intros H0 Hc Hm. split; [now apply f64_round_nonneg|].
  destruct (Qlt_le_dec 0 x) as [Hx|Hx].
  - rewrite (f64_round_positive x Hx).
    pose proof (qexp_mono x c Hx Hc) as He. split.
    + now apply (f64_round_pos_le_grid x c m (qexp c)).
    + eapply Qle_trans; [apply f64_round_pos_error|].
      apply Qmult_le_compat_r; [now apply pow2_le|discriminate].
  - assert (E : Qeq x 0) by lra. rewrite (f64_round_zero x E). split; [lra|].
    assert (E0 : Qeq (0 - x) 0) by lra. rewrite E0. cbn [Qabs Z.abs Qnum Qden].
    apply Qmult_le_0_compat; [apply Qlt_le_weak, pow2_pos|discriminate].
Qed.

Lemma ratio_bounds (a b : nat) :
  (a <= b)%nat -> b <> 0%nat ->
  let q := Qdiv (inject_Z (Z.of_nat a)) (inject_Z (Z.of_nat b)) in
  Qle 0 q /\ Qle q 1.
Proof.
  intros Hab Hb q. subst q.
  destruct (Z.of_nat b) as [|p|p] eqn:Eb; try lia.
  assert (Ha : 0 <= Z.of_nat a <= Z.pos p) by lia.
  generalize dependent (Z.of_nat a). intros z Hz.
  unfold Qle, Qdiv, Qmult, Qinv, inject_Z. cbn.
  rewrite ?Pos.mul_1_r, ?Z.mul_1_r. split; nia.
Qed.

(** The float [a / b * 100] of two sizes [a <= b]: between 0 and 100, and
    within 41 * 2^-51 of the exact percentage. *)
Lemma percent_f64 (a b : nat) :
  (a <= b)%nat -> b <> 0%nat ->
  let q := Qdiv (inject_Z (Z.of_nat a)) (inject_Z (Z.of_nat b)) in
  let r := f64_round (f64_round q * 100) in
  Qle 0 r /\ Qle r 100 /\
  Qle (Qabs (r - Qdiv (Qmult 100 (inject_Z (Z.of_nat a))) (inject_Z (Z.of_nat b))))
      (41 * pow2 (-51)).
Proof.
  intros Hab Hb q r.
  destruct (ratio_bounds a b Hab Hb) as [Hq0 Hq1]. fold q in Hq0, Hq1.
  destruct (percent_bounds a b Hab Hb) as [Hexact _]. fold q in Hexact.
  rewrite <- Hexact.
  destruct (f64_round_below q 1 4503599627370496 Hq0 Hq1) as (H10 & H11 & H1e);
    [vm_compute; reflexivity|].
  change (qexp 1) with (-52) in H1e.
  set (r1 := f64_round q) in *.
  destruct (f64_round_below (r1 * 100) 100 7036874417766400) as (Hr0 & Hr1 & Hre);
    [lra|lra|vm_compute; reflexivity|].
  change (qexp 100) with (-46) in Hre. fold r in Hr0, Hr1, Hre.
  split; [exact Hr0|]. split; [exact Hr1|].
  apply Qabs_Qle_condition in H1e. apply Qabs_Qle_condition in Hre.
  apply Qabs_Qle_condition.
  assert (E52 : Qeq (pow2 (-52)) (pow2 (-51) * (1 # 2))) by (vm_compute; reflexivity).
  assert (E46 : Qeq (pow2 (-46)) (pow2 (-51) * 32)) by (vm_compute; reflexivity).
  pose proof (pow2_pos (-51)) as Hp.
  rewrite E52 in H1e. rewrite E46 in Hre.
  generalize dependent (pow2 (-51)). intros p. intros. lra.
Qed.

(** [compare_documents_f64] behind the two fingerprint computations: the
    guard and the two roundings. *)
Lemma compare_documents_f64_sets (doc1 doc2 : string) (k w : Z) (f1 f2 : list string) :
  winnowing_fingerprint doc1 k w = Ok f1 ->
  winnowing_fingerprint doc2 k w = Ok f2 ->
  let F1 : gset string := list_to_set f1 in
  let F2 : gset string := list_to_set f2 in
  compare_documents_f64 doc1 doc2 k w =
  if bool_decide (F1 = ∅) || bool_decide (F2 = ∅) then Ok 0%Q
  else Ok (f64_round
             (Qmult (f64_round (Qdiv (inject_Z (Z.of_nat (size (F1 ∩ F2))))
                                     (inject_Z (Z.of_nat (size (F1 ∪ F2))))))
                    100)).
Proof.
  intros H1 H2 F1 F2. unfold compare_documents_f64. rewrite H1, H2. cbn [rbind].
  fold F1 F2. destruct (bool_decide (F1 = ∅) || bool_decide (F2 = ∅)) eqn:Hg;
    [reflexivity|].
  apply empty_guard_false in Hg. destruct Hg as [Hne1 _].
  unfold f64_truediv. destruct (Nat.eqb_spec (size (F1 ∪ F2)) 0) as [Hz|_].
  - now apply union_size_pos in Hz.
  - reflexivity.
Qed.

(** The two extremes are exact in binary64. *)
Lemma percent_f64_zero (b : nat) :
  f64_round (f64_round (Qdiv (inject_Z (Z.of_nat 0)) (inject_Z (Z.of_nat b))) * 100)
  = 0%Q.
Proof.
  rewrite (f64_round_zero (Qdiv _ _)); [reflexivity|].
  unfold Qdiv. apply Qmult_0_l.
Qed.

Lemma percent_f64_full (a : nat) :
  a <> 0%nat ->
  f64_round (f64_round (Qdiv (inject_Z (Z.of_nat a)) (inject_Z (Z.of_nat a))) * 100)
  = 100%Q.
Proof.
  intros Ha.
  rewrite (f64_round_comp (Qdiv _ _) 1); [vm_compute; reflexivity|].
  apply Qmult_inv_r. intros E. unfold Qeq in E. cbn in E. lia.
Qed.

(** C2 (as stated, refuted). The two texts have 15 and 16 distinct
    letters, 11 of them in common; with k = 1 and w = 1 the fingerprint
    sets are the hashes of the letters, so the Jaccard percentage is
    100 * 11 / 20 = 55. The comparison returns the float
    55.00000000000001, that is 7740561859543041 / 2^47: the quotient 11/20
    is rounded to a binary64 number before it is multiplied by 100. *)
Lemma C2_float_similarity_differs :
  exists f1 f2 : list string,
    winnowing_fingerprint "abcdefghijklmno" 1 1 = Ok f1 /\
    winnowing_fingerprint "abcdefghijkpqrst" 1 1 = Ok f2 /\
    let F1 : gset string := list_to_set f1 in
    let F2 : gset string := list_to_set f2 in
    F1 <> ∅ /\ F2 <> ∅ /\
    size (F1 ∩ F2) = 11%nat /\ size (F1 ∪ F2) = 20%nat /\
    Qeq (jaccard_percent F1 F2) 55 /\
    compare_documents_f64 "abcdefghijklmno" "abcdefghijkpqrst" 1 1 =
      Ok (7740561859543041 # 140737488355328) /\
    ~ Qeq (7740561859543041 # 140737488355328) (jaccard_percent F1 F2).
Proof.
  eexists. eexists.
  split; [vm_compute; reflexivity|]. split; [vm_compute; reflexivity|].
  cbv zeta.
  split; [intros E; apply list_to_set_empty_iff in E; discriminate E|].
  split; [intros E; apply list_to_set_empty_iff in E; discriminate E|].
  split; [vm_compute; reflexivity|]. split; [vm_compute; reflexivity|].
  split; [vm_compute; reflexivity|]. split; [vm_compute; reflexivity|].
  vm_compute. discriminate.
Qed.

(** C2 (amended). When both fingerprint sets are non-empty, the comparison
    returns the binary64 value of |F1 ∩ F2| / |F1 ∪ F2| * 100: the quotient
    rounded to the nearest float, times 100, rounded again. That value
    lies between 0 and 100 and within 41 * 2^-51 of the Jaccard
    percentage; it is exactly 0 for disjoint sets and exactly 100 for
    equal sets. *)
Theorem C2_similarity_is_rounded_jaccard_percentage
    (doc1 doc2 : string) (k w : Z) (f1 f2 : list string) :
  winnowing_fingerprint doc1 k w = Ok f1 ->
  winnowing_fingerprint doc2 k w = Ok f2 ->
  let F1 : gset string := list_to_set f1 in
  let F2 : gset string := list_to_set f2 in
  F1 <> ∅ -> F2 <> ∅ ->
  exists r, compare_documents_f64 doc1 doc2 k w = Ok r /\
            r = f64_round
                  (f64_round (Qdiv (inject_Z (Z.of_nat (size (F1 ∩ F2))))
                                   (inject_Z (Z.of_nat (size (F1 ∪ F2))))) * 100) /\
            Qle 0 r /\ Qle r 100 /\
            Qle (Qabs (r - jaccard_percent F1 F2)) (41 * pow2 (-51)) /\
            (F1 ∩ F2 = ∅ -> r = 0%Q) /\
            (F1 = F2 -> r = 100%Q).
Proof.
  intros H1 H2 F1 F2 Hne1 Hne2.
  rewrite (compare_documents_f64_sets _ _ _ _ _ _ H1 H2). fold F1 F2.
  replace (bool_decide (F1 = ∅) || bool_decide (F2 = ∅)) with false
    by (symmetry; now apply empty_guard_false).
  eexists. split; [reflexivity|]. split; [reflexivity|].
  assert (Hab : (size (F1 ∩ F2) <= size (F1 ∪ F2))%nat).
  { apply subseteq_size.
    etrans; [apply intersection_subseteq_l|apply union_subseteq_l]. }
  assert (Hb : size (F1 ∪ F2) <> 0%nat) by now apply union_size_pos.
  destruct (percent_f64 _ _ Hab Hb) as (Hr0 & Hr1 & Herr).
  split; [exact Hr0|]. split; [exact Hr1|]. split; [exact Herr|]. split.
  - intros Hdisj. rewrite Hdisj, size_empty. apply percent_f64_zero.
  - intros Heq. rewrite <- Heq.
    rewrite (idemp_L (∩) F1), (idemp_L (∪) F1).
    apply percent_f64_full. intros Hz. apply size_empty_inv in Hz.
    apply Hne1. now apply leibniz_equiv.
Qed.

Lemma C2_similarity_is_rounded_jaccard_percentage_witness :
  exists r, compare_documents_f64 "the quick brown fox" "the quick brown fox jumps" 5 4
            = Ok r /\
            Qle 0 r /\ Qle r 100.
Proof.
  edestruct (C2_similarity_is_rounded_jaccard_percentage
               "the quick brown fox" "the quick brown fox jumps" 5 4)
    as (r & Hr & _ & H0 & H100 & _).
  - vm_compute. reflexivity.
  - vm_compute. reflexivity.
  - intros E. apply list_to_set_empty_iff in E. discriminate E.
  - intros E. apply list_to_set_empty_iff in E. discriminate E.
  - exists r. split; [exact Hr|]. split; [exact H0|exact H100].
Defined.

(** [compare_documents_f64] against [compare_documents]: the same
    exceptions, a value within 41 * 2^-51 of the exact one, and the same
    value where the exact one is 0 or 100. *)
Lemma compare_documents_f64_exact (doc1 doc2 : string) (k w : Z) :
  match compare_documents doc1 doc2 k w with
  | Raise e => compare_documents_f64 doc1 doc2 k w = Raise e
  | Ok q =>
      exists r, compare_documents_f64 doc1 doc2 k w = Ok r /\
                Qle (Qabs (r - q)) (41 * pow2 (-51)) /\
                (Qeq q 0 -> r = 0%Q) /\ (Qeq q 100 -> r = 100%Q)
  end.
Proof.
  destruct (winnowing_fingerprint doc1 k w) as [f1|e1] eqn:H1.
  2: { unfold compare_documents, compare_documents_f64. rewrite H1. reflexivity. }
  destruct (winnowing_fingerprint doc2 k w) as [f2|e2] eqn:H2.
  2: { unfold compare_documents, compare_documents_f64. rewrite H1, H2. reflexivity. }
  rewrite (compare_documents_sets _ _ _ _ _ _ H1 H2).
  rewrite (compare_documents_f64_sets _ _ _ _ _ _ H1 H2).
  set (F1 := list_to_set f1 : gset string). set (F2 := list_to_set f2 : gset string).
  destruct (bool_decide (F1 = ∅) || bool_decide (F2 = ∅)) eqn:Hg.
  - exists 0%Q. split; [reflexivity|]. split; [vm_compute; discriminate|].
    split; [reflexivity|]. intros E. discriminate E.
  - apply empty_guard_false in Hg. destruct Hg as [Hne1 _].
    assert (Hab : (size (F1 ∩ F2) <= size (F1 ∪ F2))%nat).
    { apply subseteq_size.
      etrans; [apply intersection_subseteq_l|apply union_subseteq_l]. }
    assert (Hb : size (F1 ∪ F2) <> 0%nat) by now apply union_size_pos.
    destruct (percent_f64 _ _ Hab Hb) as (_ & _ & Herr).
    destruct (percent_bounds _ _ Hab Hb) as (Hexact & _).
    set (q := Qdiv (inject_Z (Z.of_nat (size (F1 ∩ F2))))
                   (inject_Z (Z.of_nat (size (F1 ∪ F2))))) in *.
    eexists. split; [reflexivity|]. split; [|split].
    + rewrite Hexact. exact Herr.
    + intros E. rewrite (f64_round_zero q) by lra. reflexivity.
    + intros E. rewrite (f64_round_comp q 1) by lra. vm_compute. reflexivity.
Qed.

Lemma compare_documents_empty (doc1 doc2 : string) (k w : Z) (f1 f2 : list string) :
  winnowing_fingerprint doc1 k w = Ok f1 ->
  winnowing_fingerprint doc2 k w = Ok f2 ->
  f1 = [] \/ f2 = [] ->
  compare_documents doc1 doc2 k w = Ok 0%Q.
Proof.
  intros H1 H2 Hempty. rewrite (compare_documents_sets _ _ _ _ _ _ H1 H2).
  replace (bool_decide (list_to_set f1 = (∅ : gset string))
           || bool_decide (list_to_set f2 = (∅ : gset string))) with true;
    [reflexivity|].
  symmetry. apply empty_guard_true. rewrite !list_to_set_empty_iff. exact Hempty.
Qed.

(** C6. When both fingerprint lists are computed and one of them is empty,
    the comparison returns 0.0; and no comparison ever fails with a
    division by zero, because the guard comes before the division. *)
Theorem C6_empty_fingerprint_gives_zero
    (doc1 doc2 : string) (k w : Z) (f1 f2 : list string) :
  winnowing_fingerprint doc1 k w = Ok f1 ->
  winnowing_fingerprint doc2 k w = Ok f2 ->
  f1 = [] \/ f2 = [] ->
  compare_documents doc1 doc2 k w = Ok 0%Q /\
  (forall (a b : string) (k' w' : Z),
     compare_documents a b k' w' <> Raise ZeroDivisionError).
Proof.
  intros H1 H2 Hempty. split.
  - eapply compare_documents_empty; eassumption.
  - intros a b k' w' H. apply compare_documents_exn in H. discriminate H.
Qed.

Lemma C6_empty_fingerprint_gives_zero_witness :
  compare_documents "abc" "xyz" 5 4 = Ok 0%Q.
Proof.
  apply (C6_empty_fingerprint_gives_zero "abc" "xyz" 5 4 [] []).
  - vm_compute. reflexivity.
  - vm_compute. reflexivity.
  - left. reflexivity.
Defined.

(** C7. The comparison is symmetric in its two documents, for all
    parameters (a failing fingerprint computation fails both ways round). *)
Theorem C7_compare_symmetric (A B : string) (k w : Z) :
  compare_documents A B k w = compare_documents B A k w.
Proof.
  destruct (winnowing_fingerprint A k w) as [fa|ea] eqn:HA;
    destruct (winnowing_fingerprint B k w) as [fb|eb] eqn:HB.
  - rewrite (compare_documents_sets _ _ _ _ _ _ HA HB).
    rewrite (compare_documents_sets _ _ _ _ _ _ HB HA).
    rewrite (comm_L (∩) (list_to_set fb) (list_to_set fa)).
    rewrite (comm_L (∪) (list_to_set fb) (list_to_set fa)).
    now rewrite orb_comm.
  - pose proof (winnowing_fingerprint_exn _ _ _ _ HB) as ->.
    rewrite compare_documents_raise_r by exact HB.
    now rewrite compare_documents_raise_l by exact HB.
  - pose proof (winnowing_fingerprint_exn _ _ _ _ HA) as ->.
    rewrite compare_documents_raise_l by exact HA.
    now rewrite compare_documents_raise_r by exact HA.
  - pose proof (winnowing_fingerprint_exn _ _ _ _ HA) as ->.
    rewrite compare_documents_raise_l by exact HA.
    now rewrite compare_documents_raise_r by exact HA.
Qed.

(** C4 (as stated, refuted). Five letters are enough for one shingle of
    width 5 but not for a window of 4 hashes: the fingerprint list is
    empty and the text compares to itself with 0.0. *)
Lemma C4_self_similarity_zero_with_one_shingle :
  1 <= 5 /\ 1 <= 4 /\ 5 <= len (text_for_shingles "abcde") /\
  compare_documents "abcde" "abcde" 5 4 = Ok 0%Q.
Proof.
  split; [lia|]. split; [lia|]. split; vm_compute; [discriminate|reflexivity].
Qed.

(** C4 (amended). For k >= 1 and w >= 1, comparing a text with itself
    gives 100.0 whenever its dense form has at least k + w - 1 letters,
    that is at least w shingles, and 0.0 when it has fewer. *)
Theorem C4_self_similarity_needs_w_shingles (A : string) (k w : Z) :
  1 <= k -> 1 <= w ->
  let L := len (text_for_shingles A) in
  (k + w - 1 <= L -> exists q, compare_documents A A k w = Ok q /\ Qeq q 100) /\
  (L < k + w - 1 -> compare_documents A A k w = Ok 0%Q).
Proof.
  intros Hk Hw L. split.
  - intros Hlong.
    pose proof (winnowing_fingerprint_long A k w ltac:(lia) Hw ltac:(fold L; lia)) as Hfp.
    fold L in Hfp. cbv zeta in Hfp.
    set (fps := map _ _) in Hfp.
    assert (Hne : (list_to_set fps : gset string) <> ∅).
    { rewrite list_to_set_empty_iff. intros E.
      apply (f_equal (@length string)) in E. unfold fps in E.
      rewrite length_map, length_seq in E. cbn [length] in E. lia. }
    rewrite (compare_documents_sets _ _ _ _ _ _ Hfp Hfp).
    replace (bool_decide (list_to_set fps = (∅ : gset string))
             || bool_decide (list_to_set fps = (∅ : gset string))) with false
      by (symmetry; now apply empty_guard_false).
    pose proof (union_size_pos _ (list_to_set fps) Hne) as Hsize.
    rewrite (idemp_L (∩)). rewrite (idemp_L (∪)) in Hsize |- *.
    eexists. split; [reflexivity|]. now apply percent_full.
  - intros Hshort.
    assert (Hfp : winnowing_fingerprint A k w = Ok []).
    { destruct (Z.lt_ge_cases L k) as [Hlt|Hge].
      - now apply winnowing_fingerprint_short.
      - rewrite (winnowing_fingerprint_long A k w) by (fold L; lia).
        fold L. replace (Z.to_nat (L - k + 1 - w + 1)) with 0%nat by lia.
        reflexivity. }
    apply (compare_documents_empty _ _ _ _ [] [] Hfp Hfp). now left.
Qed.

Lemma C4_self_similarity_needs_w_shingles_witness :
  1 <= 5 /\ 1 <= 4 /\
  exists q, compare_documents "the quick brown fox" "the quick brown fox" 5 4 = Ok q /\
            Qeq q 100.
Proof.
  split; [lia|]. split; [lia|].
  destruct (C4_self_similarity_needs_w_shingles "the quick brown fox" 5 4) as [Hlong _]; [lia|lia|].
  apply Hlong. vm_compute. discriminate.
Defined.




(** ** Invariance under case, punctuation and spacing *)

Lemma lower_char_swapcase (c : ascii) : lower_char (swapcase c) = lower_char c.
Proof. destruct c as [[] [] [] [] [] [] [] []]; reflexivity. Qed.

Lemma separator_not_letter (c : ascii) :
  is_punctuation c || isspace c = true -> is_az (lower_char c) = false.
Proof.
  destruct c as [[] [] [] [] [] [] [] []]; intros H;
    solve [reflexivity | vm_compute in H; discriminate H].
Qed.

Lemma variant_same_letters (t t' : list ascii) :
  variant t t' ->
  List.filter is_az (str_lower t) = List.filter is_az (str_lower t').
Proof.
  unfold str_lower. induction 1 as [|c t t' _ IH|c t t' _ IH|c t t' Hc _ IH|c t t' Hc _ IH];
    cbn [map List.filter].
  - reflexivity.
  - now rewrite IH.
  - now rewrite lower_char_swapcase, IH.
  - now rewrite (separator_not_letter c Hc).
  - now rewrite (separator_not_letter c Hc).
Qed.

Lemma variant_same_dense (T T' : string) :
  variant (list_ascii_of_string T) (list_ascii_of_string T') ->
  text_for_shingles T' = text_for_shingles T.
Proof.
  intros H. rewrite !text_for_shingles_letters. symmetry.
  now apply variant_same_letters.
Qed.

(** C9. A text and a variant of it that differs by letter case and by
    inserted or removed punctuation and whitespace have the same
    fingerprint, for every k and w, and the same similarity to any third
    document, on either side of the comparison. *)
Theorem C9_fingerprint_invariant_under_case_and_punctuation
    (T T' D : string) (k w : Z) :
  variant (list_ascii_of_string T) (list_ascii_of_string T') ->
  winnowing_fingerprint T' k w = winnowing_fingerprint T k w /\
  compare_documents T' D k w = compare_documents T D k w /\
  compare_documents D T' k w = compare_documents D T k w.
Proof.
  intros H. apply variant_same_dense in H.
  assert (Hfp : winnowing_fingerprint T' k w = winnowing_fingerprint T k w)
    by (unfold winnowing_fingerprint; now rewrite H).
  unfold compare_documents. now rewrite Hfp.
Qed.

Lemma hello_world_variant :
  variant (list_ascii_of_string "Hello, World!") (list_ascii_of_string "hello world").
Proof.
  cbn [list_ascii_of_string].
  apply (variant_case "H"). do 4 apply variant_same.
  apply variant_remove; [reflexivity|]. apply variant_same.
  apply (variant_case "W"). do 4 apply variant_same.
  apply variant_remove; [reflexivity|]. apply variant_nil.
Defined.

Lemma C9_fingerprint_invariant_under_case_and_punctuation_witness :
  winnowing_fingerprint "hello world" 5 4 = winnowing_fingerprint "Hello, World!" 5 4 /\
  compare_documents "hello world" "hello there" 5 4 =
    compare_documents "Hello, World!" "hello there" 5 4.
Proof.
  destruct (C9_fingerprint_invariant_under_case_and_punctuation
              "Hello, World!" "hello world" "hello there" 5 4 hello_world_variant)
    as (Hfp & Hcmp & _).
  split; [exact Hfp|exact Hcmp].
Defined.

(** ** The pair loop *)

Lemma py_getitem_inside {A : Type} (l : list A) (i : Z) (d : A) :
  0 <= i < len l -> py_getitem l i = Ok (nth (Z.to_nat i) l d).
Proof.
  intros Hi. unfold py_getitem.
  destruct (Z.ltb_spec i 0); [lia|]. destruct (Z.ltb_spec i 0); [lia|].
  destruct (Z.leb_spec (len l) i); [lia|]. cbn [orb].
  rewrite (nth_error_nth' l d); [reflexivity|]. unfold len in Hi. lia.
Qed.

Lemma loop_j_ok (sid : string) (documents : list document) (k w i : Z)
    (js : list Z) (sims : list pair_result) (d : db) :
  1 <= w -> 0 <= i < len documents ->
  (forall j, In j js -> 0 <= j < len documents) ->
  loop_j sid documents k w i js sims d =
  (Ok (sims ++ map (result_at sid documents k w i) js),
   d ++ map (row_at sid documents k w i) js).
Proof.
  intros Hw Hi. revert sims d.
  induction js as [|j js IH]; intros sims d Hjs; cbn [loop_j map].
  - unfold mret. now rewrite !app_nil_r.
  - unfold mbind at 1, lift at 1.
    rewrite (py_getitem_inside documents i (Document "" "")) by exact Hi.
    unfold mbind at 1, lift at 1.
    rewrite (py_getitem_inside documents j (Document "" ""))
      by (apply Hjs; now left).
    fold (doc_at documents i) (doc_at documents j).
    destruct (compare_documents_returns (doc_text (doc_at documents i))
                (doc_text (doc_at documents j)) k w Hw) as [q Hq].
    unfold mbind at 1, lift at 1. rewrite Hq.
    unfold mbind at 1, save_result_to_db.
    rewrite IH by (intros j' Hj'; apply Hjs; now right).
    unfold result_at, row_at, sim_at. rewrite Hq.
    now rewrite <- !app_assoc.
Qed.

Lemma loop_i_ok (sid : string) (documents : list document) (k w : Z)
    (ixs : list Z) (sims : list pair_result) (d : db) :
  1 <= w ->
  (forall i, In i ixs -> 0 <= i < len documents) ->
  loop_i sid documents k w ixs sims d =
  (Ok (sims ++ flat_map (fun i => map (result_at sid documents k w i)
                                      (py_range2 (i + 1) (len documents))) ixs),
   d ++ flat_map (fun i => map (row_at sid documents k w i)
                               (py_range2 (i + 1) (len documents))) ixs).
Proof.
  intros Hw. revert sims d.
  induction ixs as [|i ixs IH]; intros sims d Hixs; cbn [loop_i flat_map].
  - unfold mret. now rewrite !app_nil_r.
  - unfold mbind. rewrite loop_j_ok.
    + rewrite IH by (intros i' Hi'; apply Hixs; now right).
      now rewrite <- !app_assoc.
    + exact Hw.
    + apply Hixs. now left.
    + intros j Hj. apply py_range2_In in Hj.
      assert (0 <= i < len documents) by (apply Hixs; now left). lia.
Qed.

Lemma lex_lt_irrefl (a : Z * Z) : ~ lex_lt a a.
Proof. unfold lex_lt. lia. Qed.

Lemma sorted_app {A : Type} (R : A -> A -> Prop) (l1 l2 : list A) :
  StronglySorted R l1 -> StronglySorted R l2 ->
  (forall x y, In x l1 -> In y l2 -> R x y) ->
  StronglySorted R (l1 ++ l2).
Proof.
  intros H1 H2 Hcross. induction H1 as [|x l1 Hs IH Hx]; cbn [app]; [exact H2|].
  constructor.
  - apply IH. intros a b Ha. apply Hcross. now right.
  - apply Forall_app. split; [exact Hx|].
    apply List.Forall_forall. intros y Hy. apply Hcross; [now left|exact Hy].
Qed.

Lemma sorted_seq_map (f : nat -> Z * Z) (a n : nat) :
  (forall x y, (x < y)%nat -> lex_lt (f x) (f y)) ->
  StronglySorted lex_lt (map f (seq a n)).
Proof.
  intros Hmono. revert a. induction n as [|n IH]; intros a; cbn [seq map].
  - constructor.
  - constructor; [apply IH|]. apply List.Forall_forall. intros y Hy.
    apply in_map_iff in Hy. destruct Hy as (x & <- & Hx). apply in_seq in Hx.
    apply Hmono. lia.
Qed.

Lemma sorted_NoDup (l : list (Z * Z)) :
  StronglySorted lex_lt l -> NoDup l.
Proof.
  induction 1 as [|x l _ IH Hx]; constructor; [|exact IH].
  intros Hin. apply list_elem_of_In in Hin. rewrite List.Forall_forall in Hx.
  exact (lex_lt_irrefl x (Hx x Hin)).
Qed.

Lemma pairs_from_In (n : Z) (ixs : list Z) (i j : Z) :
  In (i, j) (pairs_from n ixs) <-> In i ixs /\ i < j < n.
Proof.
  unfold pairs_from. rewrite in_flat_map. split.
  - intros (x & Hx & Hin). apply in_map_iff in Hin.
    destruct Hin as (y & [= -> ->] & Hy). apply py_range2_In in Hy.
    split; [exact Hx|lia].
  - intros [Hi Hj]. exists i. split; [exact Hi|].
    apply in_map. apply py_range2_In. lia.
Qed.

Lemma pairs_from_sorted (n : Z) (a m : nat) :
  StronglySorted lex_lt (pairs_from n (map Z.of_nat (seq a m))).
Proof.
  revert a. induction m as [|m IH]; intros a; cbn [seq map]; [constructor|].
  unfold pairs_from. cbn [flat_map]. apply sorted_app.
  - unfold py_range2. rewrite map_map. apply sorted_seq_map.
    intros x y Hxy. right. cbn [fst snd]. lia.
  - apply IH.
  - intros [i j] [i' j'] Hin Hin'.
    apply in_map_iff in Hin. destruct Hin as (y & [= <- <-] & _).
    apply (pairs_from_In n) in Hin'. destruct Hin' as [Hi' _].
    apply in_map_iff in Hi'. destruct Hi' as (x & <- & Hx). apply in_seq in Hx.
    left. cbn [fst]. lia.
Qed.

Lemma pairs_from_length (n a m : nat) :
  (a + m = n)%nat ->
  (2 * length (pairs_from (Z.of_nat n) (map Z.of_nat (seq a m))) = m * (m - 1))%nat.
Proof.
  revert a. induction m as [|m IH]; intros a Ham; cbn [seq map]; [reflexivity|].
  unfold pairs_from. cbn [flat_map]. rewrite length_app, length_map, py_range2_length.
  fold (pairs_from (Z.of_nat n) (map Z.of_nat (seq (S a) m))).
  specialize (IH (S a) ltac:(lia)).
  replace (Z.to_nat (Z.of_nat n - (Z.of_nat a + 1))) with m by lia.
  nia.
Qed.

Lemma index_pairs_of_results (sid : string) (documents : list document) (k w : Z)
    (ixs : list Z) :
  map index_pair
      (flat_map (fun i => map (result_at sid documents k w i)
                              (py_range2 (i + 1) (len documents))) ixs) =
  pairs_from (len documents) ixs.
Proof.
  unfold pairs_from. induction ixs as [|i ixs IH]; cbn [flat_map]; [reflexivity|].
  rewrite map_app, IH, map_map. reflexivity.
Qed.

(** C8. For window_size >= 1 the batch operation returns, for N documents,
    exactly N * (N - 1) / 2 results: one for every pair i < j and no other,
    each carrying doc1_index < doc2_index, in ascending (i, j) order and
    hence without repetition; every result holds the names of its two
    documents and the similarity [compare_documents] gives for their texts. *)
Theorem C8_batch_returns_every_pair_once
    (sid : string) (documents : list document) (k w : Z) (d : db) :
  1 <= w ->
  let N := length documents in
  exists results d',
    detect_plagiarism sid documents k w d = (Ok results, d') /\
    length results = (N * (N - 1) / 2)%nat /\
    (forall r, In r results ->
       0 <= doc1_index r /\ doc1_index r < doc2_index r /\ doc2_index r < Z.of_nat N) /\
    (forall i j, 0 <= i -> i < j -> j < Z.of_nat N ->
       In (i, j) (map index_pair results)) /\
    StronglySorted lex_lt (map index_pair results) /\
    NoDup (map index_pair results) /\
    (forall r, In r results ->
       exists d1 d2,
         nth_error documents (Z.to_nat (doc1_index r)) = Some d1 /\
         nth_error documents (Z.to_nat (doc2_index r)) = Some d2 /\
         doc1_name r = doc_name d1 /\ doc2_name r = doc_name d2 /\
         compare_documents (doc_text d1) (doc_text d2) k w = Ok (similarity r)).
Proof.
  intros Hw N. unfold detect_plagiarism.
  rewrite loop_i_ok by (exact Hw || (intros i Hi; now apply py_range_In in Hi)).
  cbn [app]. eexists _, _. split; [reflexivity|].
  set (results := flat_map _ _).
  assert (Hidx : map index_pair results =
                 pairs_from (Z.of_nat N) (map Z.of_nat (seq 0 N))).
  { unfold results. rewrite index_pairs_of_results, py_range_nat.
    unfold len. fold N. now rewrite Nat2Z.id. }
  assert (Hin : forall r, In r results ->
            0 <= doc1_index r /\ doc1_index r < doc2_index r /\
            doc2_index r < Z.of_nat N).
  { intros r Hr. apply (in_map index_pair) in Hr. rewrite Hidx in Hr.
    apply pairs_from_In in Hr. destruct Hr as [Hi Hj].
    apply in_map_iff in Hi. destruct Hi as (x & Hx & _). lia. }
  split; [|split; [exact Hin|split; [|split; [|split]]]].
  - rewrite <- (length_map index_pair), Hidx.
    pose proof (pairs_from_length N 0 N eq_refl) as Hlen.
    rewrite <- Hlen, Nat.mul_comm. symmetry. now apply Nat.div_mul.
  - intros i j Hi Hij Hj. rewrite Hidx. apply pairs_from_In. split; [|lia].
    apply in_map_iff. exists (Z.to_nat i). split; [lia|]. apply in_seq. lia.
  - rewrite Hidx. apply pairs_from_sorted.
  - apply sorted_NoDup. rewrite Hidx. apply pairs_from_sorted.
  - intros r Hr. pose proof (Hin r Hr) as Hbounds.
    unfold results in Hr. apply in_flat_map in Hr. destruct Hr as (i & _ & Hr).
    apply in_map_iff in Hr. destruct Hr as (j & <- & _).
    cbn [result_at doc1_index doc2_index doc1_name doc2_name similarity] in *.
    exists (doc_at documents i), (doc_at documents j).
    split; [|split; [|split; [reflexivity|split; [reflexivity|]]]].
    + unfold doc_at. apply nth_error_nth'. fold N. lia.
    + unfold doc_at. apply nth_error_nth'. fold N. lia.
    + unfold sim_at.
      destruct (compare_documents_returns (doc_text (doc_at documents i))
                  (doc_text (doc_at documents j)) k w Hw) as [q Hq].
      now rewrite Hq.
Qed.

Lemma C8_batch_returns_every_pair_once_witness :
  1 <= 4 /\
  exists results d',
    detect_plagiarism "2024-01-01T00:00:00+08:00"
      [Document "a.pdf" "the quick brown fox";
       Document "b.pdf" "The quick, brown fox!";
       Document "c.pdf" "lorem ipsum dolor sit amet"] 5 4 [] = (Ok results, d') /\
    length results = 3%nat.
Proof.
  split; [lia|].
  destruct (C8_batch_returns_every_pair_once "2024-01-01T00:00:00+08:00"
              [Document "a.pdf" "the quick brown fox";
               Document "b.pdf" "The quick, brown fox!";
               Document "c.pdf" "lorem ipsum dolor sit amet"] 5 4 [])
    as (results & d' & Hrun & Hlen & _); [lia|].
  exists results, d'. split; [exact Hrun|exact Hlen].
Defined.

(** * Further properties of the code *)

(** ** Normalisation *)

(** X1. The string that is cut into shingles consists of exactly the
    letters a-z of the lower-cased text, in their order: digits,
    punctuation, whitespace of every kind and letters outside a-z are
    dropped. *)
Theorem dense_string_is_the_letters (text : string) :
  text_for_shingles text =
    List.filter is_az (map lower_char (list_ascii_of_string text)) /\
  (forall c, In c (text_for_shingles text) -> is_az c = true).
Proof.
  pose proof (text_for_shingles_letters text) as H. unfold str_lower in H.
  split; [exact H|]. intros c Hc. rewrite H in Hc.
  now apply filter_In in Hc.
Qed.

(** ** When the comparison fails, and what its extreme values mean *)

Lemma winnowing_fingerprint_fails_iff (text : string) (k w : Z) :
  winnowing_fingerprint text k w = Raise ValueError <->
  w < 1 /\ k <= len (text_for_shingles text).
Proof.
  split.
  - intros Hraise. destruct (Z.lt_ge_cases w 1) as [Hw|Hw].
    + split; [exact Hw|]. destruct (Z.lt_ge_cases (len (text_for_shingles text)) k) as [Hs|Hs];
        [|exact Hs].
      rewrite winnowing_fingerprint_short in Hraise by exact Hs. discriminate Hraise.
    + destruct (winnowing_fingerprint_returns text k w Hw) as [fps Hfp].
      rewrite Hfp in Hraise. discriminate Hraise.
  - intros [Hw Hlen]. unfold winnowing_fingerprint.
    destruct (Z.ltb_spec (len (text_for_shingles text)) k); [lia|].
    now apply winnow_windows_raise.
Qed.

(** X4. The comparison either returns a score or raises ValueError, and
    it raises exactly when window_size < 1 and one of the two texts has at
    least k letters: short texts hide an invalid window size. *)
Theorem compare_documents_fails_exactly_when (doc1 doc2 : string) (k w : Z) :
  ((exists q, compare_documents doc1 doc2 k w = Ok q) \/
   compare_documents doc1 doc2 k w = Raise ValueError) /\
  (compare_documents doc1 doc2 k w = Raise ValueError <->
   w < 1 /\ (k <= len (text_for_shingles doc1) \/ k <= len (text_for_shingles doc2))).
Proof.
  split.
  - destruct (compare_documents doc1 doc2 k w) as [q|e] eqn:H; [left; eauto|].
    right. now rewrite (compare_documents_exn _ _ _ _ _ H).
  - split.
    + intros Hraise.
      destruct (winnowing_fingerprint doc1 k w) as [f1|e1] eqn:H1.
      * destruct (winnowing_fingerprint doc2 k w) as [f2|e2] eqn:H2.
        -- rewrite (compare_documents_sets _ _ _ _ _ _ H1 H2) in Hraise.
           destruct (_ || _); discriminate Hraise.
        -- rewrite (winnowing_fingerprint_exn _ _ _ _ H2) in H2.
           apply winnowing_fingerprint_fails_iff in H2. tauto.
      * rewrite (winnowing_fingerprint_exn _ _ _ _ H1) in H1.
        apply winnowing_fingerprint_fails_iff in H1. tauto.
    + intros [Hw [Hlen|Hlen]].
      * apply compare_documents_raise_l. apply winnowing_fingerprint_fails_iff. tauto.
      * apply compare_documents_raise_r. apply winnowing_fingerprint_fails_iff. tauto.
Qed.

Lemma percent_full_iff (a b : nat) :
  b <> 0%nat ->
  Qeq (Qmult (Qdiv (inject_Z (Z.of_nat a)) (inject_Z (Z.of_nat b))) 100) 100 <-> a = b.
Proof.
  intros Hb. destruct (Z.of_nat b) as [|p|p] eqn:Eb; try lia.
  assert (Hiff : a = b <-> Z.of_nat a = Z.pos p) by lia. rewrite Hiff.
  generalize (Z.of_nat a). intros z.
  unfold Qeq, Qdiv, Qmult, Qinv, inject_Z. cbn.
  rewrite ?Pos.mul_1_r, ?Z.mul_1_r. split; intros H; nia.
Qed.

Lemma percent_zero_iff (a b : nat) :
  b <> 0%nat ->
  Qeq (Qmult (Qdiv (inject_Z (Z.of_nat a)) (inject_Z (Z.of_nat b))) 100) 0 <-> a = 0%nat.
Proof.
  intros Hb. destruct (Z.of_nat b) as [|p|p] eqn:Eb; try lia.
  assert (Hiff : a = 0%nat <-> Z.of_nat a = 0) by lia. rewrite Hiff.
  generalize (Z.of_nat a). intros z.
  unfold Qeq, Qdiv, Qmult, Qinv, inject_Z. cbn.
  rewrite ?Pos.mul_1_r, ?Z.mul_1_r. split; intros H; nia.
Qed.

(** X3. For two non-empty fingerprint sets the score is 100 exactly when
    the sets are equal and 0 exactly when they have no value in common. *)
Theorem similarity_extremes (doc1 doc2 : string) (k w : Z) (f1 f2 : list string) :
  winnowing_fingerprint doc1 k w = Ok f1 ->
  winnowing_fingerprint doc2 k w = Ok f2 ->
  let F1 : gset string := list_to_set f1 in
  let F2 : gset string := list_to_set f2 in
  F1 <> ∅ -> F2 <> ∅ ->
  exists q, compare_documents doc1 doc2 k w = Ok q /\
            (Qeq q 100 <-> F1 = F2) /\
            (Qeq q 0 <-> F1 ∩ F2 = ∅).
Proof.
  intros H1 H2 F1 F2 Hne1 Hne2.
  rewrite (compare_documents_sets _ _ _ _ _ _ H1 H2). fold F1 F2.
  replace (bool_decide (F1 = ∅) || bool_decide (F2 = ∅)) with false
    by (symmetry; now apply empty_guard_false).
  pose proof (union_size_pos F1 F2 Hne1) as Hpos.
  eexists. split; [reflexivity|]. split.
  - rewrite percent_full_iff by exact Hpos. split.
    + intros Hsize.
      assert (Heq : F1 ∩ F2 = F1 ∪ F2).
      { apply set_subseteq_size_eq; [|lia].
        etrans; [apply intersection_subseteq_l|apply union_subseteq_l]. }
      apply leibniz_equiv. intros x. split; intros Hx.
      * assert (Hu : x ∈ F1 ∪ F2) by (apply elem_of_union; now left).
        rewrite <- Heq in Hu. now apply elem_of_intersection in Hu.
      * assert (Hu : x ∈ F1 ∪ F2) by (apply elem_of_union; now right).
        rewrite <- Heq in Hu. now apply elem_of_intersection in Hu.
    + intros ->. now rewrite (idemp_L (∩)), (idemp_L (∪)).
  - rewrite percent_zero_iff by exact Hpos. split.
    + intros Hz. apply leibniz_equiv. now apply size_empty_inv.
    + intros ->. apply size_empty.
Qed.

Lemma similarity_extremes_witness :
  exists q, compare_documents "hello world" "Hello, World!" 5 4 = Ok q /\
            Qeq q 100.
Proof.
  edestruct (similarity_extremes "hello world" "Hello, World!" 5 4)
    as (q & Hq & Hfull & _).
  - vm_compute. reflexivity.
  - vm_compute. reflexivity.
  - intros E. apply list_to_set_empty_iff in E. discriminate E.
  - intros E. apply list_to_set_empty_iff in E. discriminate E.
  - exists q. split; [exact Hq|]. apply Hfull. reflexivity.
Defined.

(** ** The handler on few documents, and what it stores *)

(** X6. With no document or a single one there is no pair: the handler
    returns the empty list and stores nothing, whatever k and window_size
    are (no comparison runs, so invalid parameters go unnoticed). *)
Theorem detect_plagiarism_needs_two_documents
    (sid : string) (documents : list document) (k w : Z) (d : db) :
  (length documents <= 1)%nat ->
  detect_plagiarism sid documents k w d = (Ok [], d).
Proof.
  intros Hlen. destruct documents as [|x [|y l]]; [reflexivity|reflexivity|].
  cbn [length] in Hlen. lia.
Qed.

Lemma detect_plagiarism_needs_two_documents_witness :
  detect_plagiarism "s" [Document "a.pdf" "the quick brown fox"] 5 0 [] = (Ok [], []).
Proof.
  apply detect_plagiarism_needs_two_documents. cbn [length]. lia.
Defined.

Lemma detect_plagiarism_run
    (sid : string) (documents : list document) (k w : Z) (d : db) :
  1 <= w ->
  exists results,
    detect_plagiarism sid documents k w d =
      (Ok results, d ++ map (row_of_result documents) results) /\
    (forall r, In r results -> session_id r = sid) /\
    length results = (length documents * (length documents - 1) / 2)%nat.
Proof.
  intros Hw. unfold detect_plagiarism.
  rewrite loop_i_ok by (exact Hw || (intros i Hi; now apply py_range_In in Hi)).
  cbn [app]. eexists. split; [|split].
  - f_equal. f_equal.
    induction (py_range (len documents)) as [|i ixs IH]; cbn [flat_map map];
      [reflexivity|].
    rewrite map_app, <- IH, map_map. reflexivity.
  - intros r Hr. apply in_flat_map in Hr. destruct Hr as (i & _ & Hr).
    apply in_map_iff in Hr. destruct Hr as (j & <- & _). reflexivity.
  - rewrite <- (length_map index_pair), index_pairs_of_results, py_range_nat.
    unfold len. rewrite Nat2Z.id.
    pose proof (pairs_from_length (length documents) 0 (length documents) eq_refl) as Hlen.
    rewrite <- Hlen, Nat.mul_comm. symmetry. now apply Nat.div_mul.
Qed.

(** X7. For window_size >= 1 every result of the handler is stored as one
    row, in the order of the results, with the same session id, names and
    similarity and the full texts of its two documents; all results carry
    the session id of the request. *)
Theorem detect_plagiarism_rows
    (sid : string) (documents : list document) (k w : Z) (d : db) :
  1 <= w ->
  exists results,
    detect_plagiarism sid documents k w d =
      (Ok results, d ++ map (row_of_result documents) results) /\
    (forall r, In r results -> session_id r = sid).
Proof.
  intros Hw. destruct (detect_plagiarism_run sid documents k w d Hw)
    as (results & Hrun & Hsid & _).
  exists results. split; assumption.
Qed.

Lemma detect_plagiarism_rows_witness :
  1 <= 4 /\
  exists results,
    detect_plagiarism "s" [Document "a" "hello world"; Document "b" "Hello, World!"] 5 4 [] =
      (Ok results,
       map (row_of_result [Document "a" "hello world"; Document "b" "Hello, World!"])
           results).
Proof.
  split; [lia|].
  destruct (detect_plagiarism_rows "s"
              [Document "a" "hello world"; Document "b" "Hello, World!"] 5 4 [])
    as (results & Hrun & _); [lia|].
  exists results. exact Hrun.
Defined.

(** ** Shared passages and appended text *)

Lemma shingle_at_inside (a c b : list ascii) (k : Z) (j : nat) :
  (j + Z.to_nat k <= length c)%nat ->
  shingle_at (a ++ c ++ b) k (length a + j) = shingle_at c k j.
Proof.
  intros Hfit. unfold shingle_at.
  rewrite skipn_app, skipn_all2 by lia. cbn [app].
  replace (length a + j - length a)%nat with j by lia.
  rewrite skipn_app, firstn_app, length_skipn.
  replace (Z.to_nat k - (length c - j))%nat with 0%nat by lia.
  cbn [firstn]. now rewrite app_nil_r.
Qed.

Lemma window_inside (a c b : list ascii) (k : Z) (w : nat) :
  (w + Z.to_nat k <= S (length c))%nat ->
  map (hash_at (a ++ c ++ b) k) (seq (length a) w) = map (hash_at c k) (seq 0 w).
Proof.
  intros Hfit. rewrite <- (Nat.add_0_r (length a)) at 1.
  rewrite <- fmap_add_seq. change (fmap ?f ?l) with (map f l).
  rewrite map_map. apply map_ext_in. intros j Hj. apply in_seq in Hj.
  unfold hash_at. rewrite shingle_at_inside by lia. reflexivity.
Qed.

Lemma percent_pos (a b : nat) :
  a <> 0%nat -> b <> 0%nat ->
  Qlt 0 (Qmult (Qdiv (inject_Z (Z.of_nat a)) (inject_Z (Z.of_nat b))) 100).
Proof.
  intros Ha Hb. destruct (Z.of_nat b) as [|p|p] eqn:Eb; try lia.
  assert (Hz : 0 < Z.of_nat a) by lia. generalize dependent (Z.of_nat a).
  intros z Hz. unfold Qlt, Qdiv, Qmult, Qinv, inject_Z. cbn.
  rewrite ?Pos.mul_1_r, ?Z.mul_1_r. nia.
Qed.

(** The fingerprint list of a text whose dense string contains [c] at
    offset [length a] holds the minimum of the first window of [c]. *)
Lemma passage_fingerprint (text : string) (k w : Z) (a c b : list ascii) :
  1 <= k -> 1 <= w ->
  text_for_shingles text = a ++ c ++ b ->
  k + w - 1 <= len c ->
  exists fps,
    winnowing_fingerprint text k w = Ok fps /\
    In (window_min (map (hash_at c k) (seq 0 (Z.to_nat w)))) fps.
Proof.
  intros Hk Hw Hs Hc.
  assert (Hlen : len (text_for_shingles text) = len a + len c + len b).
  { rewrite Hs. unfold len. rewrite !length_app. lia. }
  pose proof (len_nonneg a). pose proof (len_nonneg b).
  pose proof (winnowing_fingerprint_long text k w ltac:(lia) Hw ltac:(lia)) as Hfp.
  cbv zeta in Hfp. eexists. split; [exact Hfp|].
  rewrite <- (window_inside a c b k (Z.to_nat w)) by (unfold len in Hc; lia).
  rewrite <- Hs.
  apply (in_map (fun i => window_min (map (hash_at (text_for_shingles text) k)
                                          (seq i (Z.to_nat w))))).
  apply in_seq. unfold len in *. lia.
Qed.

(** X2. Detection guarantee of winnowing: when the dense strings of two
    texts share a passage of at least k + w - 1 letters, their fingerprint
    sets share a value and the similarity is greater than 0. *)
Theorem shared_passage_is_detected
    (A B : string) (k w : Z) (a b a' b' c : list ascii) :
  1 <= k -> 1 <= w ->
  text_for_shingles A = a ++ c ++ b ->
  text_for_shingles B = a' ++ c ++ b' ->
  k + w - 1 <= len c ->
  exists q, compare_documents A B k w = Ok q /\ Qlt 0 q.
Proof.
  intros Hk Hw HA HB Hc.
  destruct (passage_fingerprint A k w a c b Hk Hw HA Hc) as (fA & HfA & HinA).
  destruct (passage_fingerprint B k w a' c b' Hk Hw HB Hc) as (fB & HfB & HinB).
  set (m := window_min _) in *.
  rewrite (compare_documents_sets _ _ _ _ _ _ HfA HfB).
  assert (HmA : m ∈ (list_to_set fA : gset string))
    by (apply elem_of_list_to_set; now apply list_elem_of_In).
  assert (HmB : m ∈ (list_to_set fB : gset string))
    by (apply elem_of_list_to_set; now apply list_elem_of_In).
  assert (HneA : (list_to_set fA : gset string) <> ∅)
    by (intros E; rewrite E in HmA; now apply not_elem_of_empty in HmA).
  assert (HneB : (list_to_set fB : gset string) <> ∅)
    by (intros E; rewrite E in HmB; now apply not_elem_of_empty in HmB).
  replace (bool_decide (list_to_set fA = (∅ : gset string))
           || bool_decide (list_to_set fB = (∅ : gset string))) with false
    by (symmetry; now apply empty_guard_false).
  eexists. split; [reflexivity|]. apply percent_pos.
  - intros Hz. apply size_empty_inv in Hz.
    assert (Hm : m ∈ (list_to_set fA ∩ list_to_set fB : gset string))
      by (apply elem_of_intersection; now split).
    rewrite Hz in Hm. now apply not_elem_of_empty in Hm.
  - now apply union_size_pos.
Qed.

Lemma shared_passage_is_detected_witness :
  1 <= 5 /\ 1 <= 4 /\
  exists q, compare_documents "It said: hello world, twice." "12 Hello-World 34 xyz" 5 4 = Ok q /\
            Qlt 0 q.
Proof.
  split; [lia|]. split; [lia|].
  apply (shared_passage_is_detected _ _ 5 4
           (list_ascii_of_string "itsaid") (list_ascii_of_string "twice")
           [] (list_ascii_of_string "xyz") (list_ascii_of_string "helloworld")).
  - lia.
  - lia.
  - vm_compute. reflexivity.
  - vm_compute. reflexivity.
  - vm_compute. discriminate.
Defined.

Lemma list_ascii_of_string_app (A B : string) :
  list_ascii_of_string (String.append A B) =
  list_ascii_of_string A ++ list_ascii_of_string B.
Proof.
  induction A as [|c A IH]; [reflexivity|].
  change (c :: list_ascii_of_string (String.append A B) =
          c :: list_ascii_of_string A ++ list_ascii_of_string B).
  now rewrite IH.
Qed.

Lemma text_for_shingles_app (A B : string) :
  text_for_shingles (String.append A B) = text_for_shingles A ++ text_for_shingles B.
Proof.
  rewrite !text_for_shingles_letters, list_ascii_of_string_app.
  unfold str_lower. now rewrite map_app, List.filter_app.
Qed.

(** X5. Text appended to a document only adds fingerprints: for k >= 1 and
    w >= 1 the fingerprint list of A is a prefix of the fingerprint list
    of A followed by B. *)
Theorem appended_text_keeps_fingerprints (A B : string) (k w : Z) :
  1 <= k -> 1 <= w ->
  exists f1 rest,
    winnowing_fingerprint A k w = Ok f1 /\
    winnowing_fingerprint (String.append A B) k w = Ok (f1 ++ rest).
Proof.
  intros Hk Hw.
  destruct (Z.lt_ge_cases (len (text_for_shingles A)) k) as [Hshort|Hlong].
  - destruct (winnowing_fingerprint_returns (String.append A B) k w Hw) as [f2 H2].
    exists [], f2. split; [now apply winnowing_fingerprint_short|exact H2].
  - pose proof (winnowing_fingerprint_long A k w ltac:(lia) Hw Hlong) as HA.
    assert (Hlen : len (text_for_shingles (String.append A B)) =
                   len (text_for_shingles A) + len (text_for_shingles B)).
    { rewrite text_for_shingles_app. unfold len. rewrite length_app. lia. }
    pose proof (len_nonneg (text_for_shingles B)) as HB0.
    pose proof (winnowing_fingerprint_long (String.append A B) k w
                  ltac:(lia) Hw ltac:(lia)) as HAB.
    cbv zeta in HA, HAB. rewrite Hlen in HAB.
    set (sA := text_for_shingles A) in *. set (sB := text_for_shingles B) in *.
    set (LA := Z.to_nat (len sA - k + 1 - w + 1)) in *.
    set (LC := Z.to_nat (len sA + len sB - k + 1 - w + 1)) in *.
    replace LC with (LA + (LC - LA))%nat in HAB by (unfold LA, LC; lia).
    rewrite seq_app, map_app in HAB.
    assert (Hpre :
      map (fun i => window_min (map (hash_at (text_for_shingles (String.append A B)) k)
                                    (seq i (Z.to_nat w)))) (seq 0 LA) =
      map (fun i => window_min (map (hash_at sA k) (seq i (Z.to_nat w)))) (seq 0 LA)).
    { apply map_ext_in. intros i Hi. apply in_seq in Hi. f_equal.
      apply map_ext_in. intros j Hj. apply in_seq in Hj.
      unfold hash_at. rewrite text_for_shingles_app. fold sA sB.
      pose proof (shingle_at_inside [] sA sB k j) as Hin.
      cbn [app length Nat.add] in Hin. rewrite Hin; [reflexivity|].
      unfold LA, len in *. lia. }
    rewrite Hpre in HAB. eexists _, _. split; [exact HA|exact HAB].
Qed.

Lemma appended_text_keeps_fingerprints_witness :
  1 <= 5 /\ 1 <= 4 /\
  exists f1 rest,
    winnowing_fingerprint "the quick brown fox" 5 4 = Ok f1 /\
    winnowing_fingerprint "the quick brown fox jumps" 5 4 = Ok (f1 ++ rest).
Proof.
  split; [lia|]. split; [lia|].
  apply (appended_text_keeps_fingerprints "the quick brown fox" " jumps" 5 4); lia.
Defined.

(** ** A request that fails half-way *)

Lemma loop_j_pairs (sid : string) (documents : list document) (k w i : Z)
    (js : list Z) (sims : list pair_result) (d : db) :
  loop_j sid documents k w i js sims d =
  loop_pairs sid documents k w (map (pair i) js) sims d.
Proof.
  revert sims d. induction js as [|j js IH]; intros sims d; [reflexivity|].
  cbn [loop_j loop_pairs map]. unfold mbind, lift.
  destruct (py_getitem documents i) as [doc1|]; [|reflexivity].
  destruct (py_getitem documents j) as [doc2|]; [|reflexivity].
  destruct (compare_documents _ _ k w) as [q|]; [|reflexivity].
  unfold save_result_to_db. apply IH.
Qed.

Lemma loop_pairs_app (sid : string) (documents : list document) (k w : Z)
    (ps1 ps2 : list (Z * Z)) (sims : list pair_result) (d : db) :
  loop_pairs sid documents k w (ps1 ++ ps2) sims d =
  match loop_pairs sid documents k w ps1 sims d with
  | (Ok sims', d') => loop_pairs sid documents k w ps2 sims' d'
  | (Raise e, d') => (Raise e, d')
  end.
Proof.
  revert sims d. induction ps1 as [|[i j] ps1 IH]; intros sims d; [reflexivity|].
  cbn [loop_pairs app]. unfold mbind, lift.
  destruct (py_getitem documents i) as [doc1|]; [|reflexivity].
  destruct (py_getitem documents j) as [doc2|]; [|reflexivity].
  destruct (compare_documents _ _ k w) as [q|]; [|reflexivity].
  unfold save_result_to_db. apply IH.
Qed.

Lemma loop_i_pairs (sid : string) (documents : list document) (k w : Z)
    (ixs : list Z) (sims : list pair_result) (d : db) :
  loop_i sid documents k w ixs sims d =
  loop_pairs sid documents k w (pairs_from (len documents) ixs) sims d.
Proof.
  revert sims d. induction ixs as [|i ixs IH]; intros sims d; [reflexivity|].
  cbn [loop_i]. unfold pairs_from. cbn [flat_map].
  fold (pairs_from (len documents) ixs).
  rewrite loop_pairs_app. unfold mbind at 1. rewrite loop_j_pairs.
  destruct (loop_pairs sid documents k w _ sims d) as [[sims'|e] d'];
    [apply IH|reflexivity].
Qed.

Lemma loop_pairs_stops (sid : string) (documents : list document) (k w : Z)
    (pre post : list (Z * Z)) (i j : Z) (e : exn) (sims : list pair_result) (d : db) :
  (forall p, In p (pre ++ [(i, j)]) ->
     0 <= fst p < len documents /\ 0 <= snd p < len documents) ->
  (forall p, In p pre ->
     exists q, compare_documents (doc_text (doc_at documents (fst p)))
                                 (doc_text (doc_at documents (snd p))) k w = Ok q) ->
  compare_documents (doc_text (doc_at documents i))
                    (doc_text (doc_at documents j)) k w = Raise e ->
  loop_pairs sid documents k w (pre ++ (i, j) :: post) sims d =
  (Raise e, d ++ map (fun p => row_at sid documents k w (fst p) (snd p)) pre).
Proof.
  intros Hrange Hok Hfail. revert sims d Hrange Hok.
  induction pre as [|[i' j'] pre IH]; intros sims d Hrange Hok;
    cbn [loop_pairs app map].
  - destruct (Hrange (i, j)) as [Hi Hj]; [now left|]. cbn [fst snd] in Hi, Hj.
    unfold mbind, lift.
    rewrite (py_getitem_inside documents i (Document "" "")) by exact Hi.
    rewrite (py_getitem_inside documents j (Document "" "")) by exact Hj.
    fold (doc_at documents i) (doc_at documents j). rewrite Hfail.
    now rewrite app_nil_r.
  - destruct (Hrange (i', j')) as [Hi Hj]; [now left|]. cbn [fst snd] in Hi, Hj.
    destruct (Hok (i', j')) as [q Hq]; [now left|]. cbn [fst snd] in Hq.
    unfold mbind at 1, lift at 1.
    rewrite (py_getitem_inside documents i' (Document "" "")) by exact Hi.
    unfold mbind at 1, lift at 1.
    rewrite (py_getitem_inside documents j' (Document "" "")) by exact Hj.
    fold (doc_at documents i') (doc_at documents j').
    unfold mbind at 1, lift at 1. rewrite Hq.
    unfold mbind at 1, save_result_to_db.
    rewrite IH.
    + unfold row_at at 2, sim_at. cbn [fst snd]. rewrite Hq.
      now rewrite <- app_assoc.
    + intros p Hp. apply Hrange. now right.
    + intros p Hp. apply Hok. now right.
Qed.

(** X8. The handler is not atomic. When the comparison of the pair (i, j)
    raises while the comparisons of all pairs before it returned, the
    request fails with that exception and the rows of the pairs before
    (i, j) stay in the table, although no response carries their session id. *)
Theorem failed_request_keeps_earlier_rows
    (sid : string) (documents : list document) (k w : Z) (d : db)
    (pre post : list (Z * Z)) (i j : Z) (e : exn) :
  pairs_from (len documents) (py_range (len documents)) = pre ++ (i, j) :: post ->
  (forall p, In p pre ->
     exists q, compare_documents (doc_text (doc_at documents (fst p)))
                                 (doc_text (doc_at documents (snd p))) k w = Ok q) ->
  compare_documents (doc_text (doc_at documents i))
                    (doc_text (doc_at documents j)) k w = Raise e ->
  detect_plagiarism sid documents k w d =
  (Raise e, d ++ map (fun p => row_at sid documents k w (fst p) (snd p)) pre).
Proof.
  intros Hpairs Hok Hfail. unfold detect_plagiarism.
  rewrite loop_i_pairs, Hpairs. apply loop_pairs_stops; [|exact Hok|exact Hfail].
  intros [a b] Hp.
  assert (Hin : In (a, b) (pairs_from (len documents) (py_range (len documents)))).
  { rewrite Hpairs. apply in_app_iff in Hp. apply in_app_iff.
    destruct Hp as [Hp|[Hp|[]]]; [now left|right; now left]. }
  apply pairs_from_In in Hin. destruct Hin as [Ha Hb].
  apply py_range_In in Ha. cbn [fst snd]. lia.
Qed.

Lemma failed_request_keeps_earlier_rows_witness :
  detect_plagiarism "s"
    [Document "a" "abc"; Document "b" "xyz"; Document "c" "the quick brown fox"] 5 0 [] =
  (Raise ValueError, [Row "s" "a" "b" "abc" "xyz" 0%Q]).
Proof.
  apply (failed_request_keeps_earlier_rows "s"
           [Document "a" "abc"; Document "b" "xyz"; Document "c" "the quick brown fox"]
           5 0 [] [(0, 1)] [(1, 2)] 0 2 ValueError).
  - reflexivity.
  - intros p [<-|[]]. exists 0%Q. vm_compute. reflexivity.
  - vm_compute. reflexivity.
Defined.

(** ** The table: ids, lookup and deletion *)

Lemma max_id_nonneg (rows : list stored_row) : 0 <= max_id rows.
Proof. induction rows as [|r rows IH]; cbn [max_id fold_right]; [lia|]. fold (max_id rows). lia. Qed.

Lemma max_id_ge (rows : list stored_row) (r : stored_row) :
  In r rows -> sr_id r <= max_id rows.
Proof.
  induction rows as [|x rows IH]; [intros []|].
  cbn [max_id fold_right]. fold (max_id rows).
  intros [->|Hr]; [lia|]. specialize (IH Hr). lia.
Qed.

Lemma in_map_sr_id (rows : list stored_row) (r : stored_row) :
  In r rows -> In (sr_id r) (map sr_id rows).
Proof. apply in_map. Qed.

Lemma NoDup_snoc {A : Type} (l : list A) (x : A) :
  List.NoDup l -> ~ In x l -> List.NoDup (l ++ [x]).
Proof.
  induction 1 as [|y l Hy Hl IH]; cbn [app]; intros Hx.
  - constructor; [intros []|constructor].
  - constructor.
    + intros Hin. apply in_app_iff in Hin. destruct Hin as [Hin|[<-|[]]].
      * now apply Hy.
      * apply Hx. now left.
    + apply IH. intros Hin. apply Hx. now right.
Qed.

Lemma sql_insert_ok (clock : Z -> string) (r : row) (t : table) :
  table_ok t -> table_ok (sql_insert clock r t).
Proof.
  intros [Hnodup Hrange]. unfold table_ok, sql_insert. cbn [t_rows t_seq].
  pose proof (max_id_nonneg (t_rows t)) as H0. split.
  - rewrite map_app. cbn [map sr_id]. apply NoDup_snoc; [exact Hnodup|].
    intros Hin. apply in_map_iff in Hin.
    destruct Hin as (x & Hx & Hin). apply max_id_ge in Hin. lia.
  - intros x Hx. apply in_app_iff in Hx. destruct Hx as [Hx|[<-|[]]].
    + specialize (Hrange x Hx). lia.
    + cbn [sr_id]. lia.
Qed.

Lemma delete_session_ok (t : table) (sid : string) :
  table_ok t -> table_ok (snd (delete_session t sid)).
Proof.
  intros [Hnodup Hrange]. unfold delete_session.
  destruct (Nat.eqb _ 0); cbn [snd]; unfold table_ok; cbn [t_rows t_seq].
  all: split;
    [ clear Hrange; induction (t_rows t) as [|x rows IH]; cbn [List.filter map];
        [constructor|];
      inversion Hnodup as [|? ? Hnotin Hrest]; subst;
      destruct (negb (in_session sid x)); [|now apply IH];
      cbn [map]; constructor; [|now apply IH];
      intros Hin; apply Hnotin; apply in_map_iff in Hin;
      destruct Hin as (y & Hy & Hin); apply filter_In in Hin;
      apply in_map_iff; exists y; tauto
    | intros x Hx; apply filter_In in Hx; now apply Hrange ].
Qed.

(** X9. Every table the handlers can produce from a fresh database keeps
    the primary key: the ids of its rows are distinct, at least 1 and not
    above the largest id handed out so far. *)
Theorem reachable_tables_keep_primary_key (clock : Z -> string) (t : table) :
  reachable clock t -> table_ok t.
Proof.
  induction 1 as [|r t _ IH|sid t _ IH].
  - split; [constructor|intros r []].
  - now apply sql_insert_ok.
  - now apply delete_session_ok.
Qed.

Lemma reachable_tables_keep_primary_key_witness :
  table_ok (snd (delete_session
                   (sql_insert (fun _ => "2024-01-01 00:00:00")
                      (Row "s1" "a" "b" "x" "y" 0)
                      (sql_insert (fun _ => "2024-01-01 00:00:00")
                         (Row "s0" "a" "b" "x" "y" 0) (init_db None))) "s0")).
Proof.
  apply (reachable_tables_keep_primary_key (fun _ => "2024-01-01 00:00:00")).
  apply reachable_delete. do 2 apply reachable_insert. apply reachable_init.
Defined.

Lemma sql_insert_fresh (clock : Z -> string) (r : row) (t : table) :
  table_ok t ->
  let t' := sql_insert clock r t in
  table_ok t' /\
  t_seq t < t_seq t' /\
  t_rows t' = t_rows t ++ [StoredRow (t_seq t') r (clock (t_seq t'))] /\
  (forall x, In x (t_rows t) -> sr_id x < t_seq t').
Proof.
  intros Hok t'. split; [now apply sql_insert_ok|].
  unfold t', sql_insert. cbn [t_rows t_seq].
  split; [lia|]. split; [reflexivity|].
  intros x Hx. apply max_id_ge in Hx. lia.
Qed.




Lemma find_by_id (rows : list stored_row) (r : stored_row) :
  List.NoDup (map sr_id rows) -> In r rows ->
  List.find (fun x => sr_id x =? sr_id r) rows = Some r.
Proof.
  induction rows as [|x rows IH]; [intros _ []|].
  cbn [map List.find]. intros Hnodup Hin.
  inversion Hnodup as [|? ? Hnotin Hrest]; subst.
  destruct Hin as [->|Hin]; [now rewrite Z.eqb_refl|].
  destruct (Z.eqb_spec (sr_id x) (sr_id r)) as [Heq|_]; [|now apply IH].
  exfalso. apply Hnotin. rewrite Heq. now apply in_map.
Qed.

Lemma find_no_id (rows : list stored_row) (id : Z) :
  (forall x, In x rows -> sr_id x <> id) ->
  List.find (fun x => sr_id x =? id) rows = None.
Proof.
  intros Hno. destruct (List.find _ rows) as [x|] eqn:Hfind; [|reflexivity].
  apply find_some in Hfind. destruct Hfind as [Hin Heq].
  apply Z.eqb_eq in Heq. now apply Hno in Hin.
Qed.

(** X11. Every stored row can be read back by its id: [get_history_doc]
    answers 200 with the id and with the name and the text of the first
    document for "doc1", of the second for "doc2". *)
Theorem stored_documents_are_read_back (t : table) (r : stored_row) :
  table_ok t -> In r (t_rows t) ->
  get_history_doc t (sr_id r) "doc1" =
    (JObj [("dokumen", JObj [("id", JInt (sr_id r));
                             ("name", JStr (row_doc1_name (sr_row r)));
                             ("text", JStr (row_doc1_text (sr_row r)))])], 200) /\
  get_history_doc t (sr_id r) "doc2" =
    (JObj [("dokumen", JObj [("id", JInt (sr_id r));
                             ("name", JStr (row_doc2_name (sr_row r)));
                             ("text", JStr (row_doc2_text (sr_row r)))])], 200).
Proof.
  intros [Hnodup _] Hin. unfold get_history_doc. cbn [String.eqb orb negb].
  rewrite (find_by_id _ _ Hnodup Hin).
  split; reflexivity.
Qed.

Lemma stored_documents_are_read_back_witness :
  get_history_doc
    (sql_insert (fun _ => "2024-01-01 00:00:00")
       (Row "s0" "a.pdf" "b.pdf" "text of a" "text of b" 0) (init_db None))
    1 "doc2" =
  (JObj [("dokumen", JObj [("id", JInt 1); ("name", JStr "b.pdf");
                           ("text", JStr "text of b")])], 200).
Proof.
  apply (stored_documents_are_read_back
           (sql_insert (fun _ => "2024-01-01 00:00:00")
              (Row "s0" "a.pdf" "b.pdf" "text of a" "text of b" 0) (init_db None))
           (StoredRow 1 (Row "s0" "a.pdf" "b.pdf" "text of a" "text of b" 0)
                      "2024-01-01 00:00:00")).
  - apply sql_insert_ok. split; [constructor|intros r []].
  - left. reflexivity.
Defined.




Lemma filter_all {A : Type} (f : A -> bool) (l : list A) :
  List.filter f l = [] -> List.filter (fun x => negb (f x)) l = l.
Proof.
  induction l as [|x l IH]; [reflexivity|]. cbn [List.filter].
  destruct (f x); [discriminate|]. intros H. cbn [negb]. f_equal. now apply IH.
Qed.

Lemma filter_split_length {A : Type} (f : A -> bool) (l : list A) :
  length l = (length (List.filter f l) + length (List.filter (fun x => negb (f x)) l))%nat.
Proof.
  induction l as [|x l IH]; [reflexivity|]. cbn [List.filter].
  destruct (f x); cbn [negb length]; lia.
Qed.

Lemma filter_none_left {A : Type} (f : A -> bool) (l : list A) :
  List.filter f (List.filter (fun x => negb (f x)) l) = [].
Proof.
  induction l as [|x l IH]; [reflexivity|]. cbn [List.filter].
  destruct (f x) eqn:Hx; cbn [negb]; [exact IH|].
  cbn [List.filter]. now rewrite Hx.
Qed.

Lemma in_session_iff (sid : string) (r : stored_row) :
  in_session sid r = true <-> row_session_id (sr_row r) = sid.
Proof. unfold in_session. apply String.eqb_eq. Qed.

Lemma delete_session_snd (t : table) (sid : string) :
  snd (delete_session t sid) =
  Table (List.filter (fun r => negb (in_session sid r)) (t_rows t)) (t_seq t).
Proof. unfold delete_session. destruct (Nat.eqb _ 0); reflexivity. Qed.

Lemma delete_session_fst (t : table) (sid : string) :
  fst (delete_session t sid) =
  if Nat.eqb (length (rows_of sid (t_rows t))) 0
  then (JObj [("message", JStr "Tidak ada data dengan session_id tersebut")], 404)
  else (JObj [("message",
               JStr (String.append (str_of_nat (length (rows_of sid (t_rows t))))
                       (String.append " data dari session "
                          (String.append sid " berhasil dihapus"))))], 200).
Proof. unfold delete_session, rows_of. destruct (Nat.eqb _ 0); reflexivity. Qed.

Lemma delete_session_spec (t : table) (sid : string) :
  let resp := fst (delete_session t sid) in
  let t' := snd (delete_session t sid) in
  let n := length (rows_of sid (t_rows t)) in
  (forall r, In r (t_rows t') <->
             In r (t_rows t) /\ row_session_id (sr_row r) <> sid) /\
  t_seq t' = t_seq t /\
  length (t_rows t) = (n + length (t_rows t'))%nat /\
  (n = 0%nat ->
     resp = (JObj [("message", JStr "Tidak ada data dengan session_id tersebut")], 404) /\
     t' = t) /\
  (n <> 0%nat ->
     resp = (JObj [("message",
                    JStr (String.append (str_of_nat n)
                            (String.append " data dari session "
                               (String.append sid " berhasil dihapus"))))], 200)).
Proof.
  cbv zeta. rewrite delete_session_snd, delete_session_fst. cbn [t_rows t_seq].
  split; [|split; [|split; [|split]]].
  - intros r. rewrite filter_In, negb_true_iff, <- in_session_iff.
    destruct (in_session sid r); split; intros [? ?]; split; congruence.
  - reflexivity.
  - unfold rows_of. apply filter_split_length.
  - intros Hn. rewrite Hn. cbn [Nat.eqb]. split; [reflexivity|].
    unfold rows_of in Hn. rewrite filter_all by (now apply length_zero_iff_nil).
    now destruct t.
  - intros Hn. destruct (Nat.eqb_spec (length (rows_of sid (t_rows t))) 0);
      [contradiction|reflexivity].
Qed.

(** X13. [delete_session] removes exactly the rows of the given session
    and nothing else, and leaves the id sequence alone. When the session
    has no row it answers 404 and the table is unchanged; otherwise it
    answers 200 with the number of rows removed in its message. *)
Theorem delete_session_removes_the_session (t : table) (sid : string) :
  let resp := fst (delete_session t sid) in
  let t' := snd (delete_session t sid) in
  let n := length (rows_of sid (t_rows t)) in
  (forall r, In r (t_rows t') <->
             In r (t_rows t) /\ row_session_id (sr_row r) <> sid) /\
  t_seq t' = t_seq t /\
  length (t_rows t) = (n + length (t_rows t'))%nat /\
  (n = 0%nat ->
     resp = (JObj [("message", JStr "Tidak ada data dengan session_id tersebut")], 404) /\
     t' = t) /\
  (n <> 0%nat ->
     resp = (JObj [("message",
                    JStr (String.append (str_of_nat n)
                            (String.append " data dari session "
                               (String.append sid " berhasil dihapus"))))], 200)).
Proof. apply delete_session_spec. Qed.

(** X14. Deleting a session twice: the second call finds nothing, answers
    404 and leaves the table as the first call left it. *)
Theorem delete_session_twice (t : table) (sid : string) :
  delete_session (snd (delete_session t sid)) sid =
  ((JObj [("message", JStr "Tidak ada data dengan session_id tersebut")], 404),
   snd (delete_session t sid)).
Proof.
  rewrite delete_session_snd. unfold delete_session. cbn [t_rows t_seq].
  rewrite filter_none_left. cbn [length Nat.eqb]. f_equal. f_equal.
  apply filter_all. apply filter_none_left.
Qed.

Lemma NoDup_map_inj_in {A B : Type} (f : A -> B) (l : list A) (x y : A) :
  List.NoDup (map f l) -> In x l -> In y l -> f x = f y -> x = y.
Proof.
  induction l as [|z l IH]; [intros _ []|]. cbn [map].
  intros Hnodup Hx Hy Heq. inversion Hnodup as [|? ? Hnotin Hrest]; subst.
  destruct Hx as [->|Hx]; destruct Hy as [->|Hy].
  - reflexivity.
  - exfalso. apply Hnotin. rewrite Heq. now apply in_map.
  - exfalso. apply Hnotin. rewrite <- Heq. now apply in_map.
  - now apply IH.
Qed.

Lemma store_rows_spec (clock : Z -> string) (written : list row) (t : table) :
  table_ok t ->
  table_ok (store_rows clock written t) /\
  t_seq t <= t_seq (store_rows clock written t) /\
  (forall x, In x (t_rows (store_rows clock written t)) ->
             In x (t_rows t) \/ t_seq t < sr_id x).
Proof.
  revert t. induction written as [|r written IH]; intros t Hok; cbn [store_rows fold_left].
  - split; [exact Hok|]. split; [lia|]. intros x Hx. now left.
  - fold (store_rows clock written (sql_insert clock r t)).
    destruct (sql_insert_fresh clock r t Hok) as (Hok' & Hlt & Hrows & _).
    destruct (IH _ Hok') as (Hok'' & Hle & Hin).
    split; [exact Hok''|]. split; [lia|].
    intros x Hx. destruct (Hin x Hx) as [Hold|Hnew]; [|right; lia].
    rewrite Hrows in Hold. apply in_app_iff in Hold.
    destruct Hold as [Hold|[<-|[]]]; [now left|right]. cbn [sr_id]. lia.
Qed.

(** X15. The id of a deleted row is gone for good: after its session is
    deleted, and whatever is inserted afterwards, [get_history_doc] on
    that id answers 404 and never shows another document. *)
Theorem deleted_ids_are_not_reused
    (clock : Z -> string) (t : table) (r : stored_row) (written : list row) :
  table_ok t -> In r (t_rows t) ->
  let t' := store_rows clock written
              (snd (delete_session t (row_session_id (sr_row r)))) in
  get_history_doc t' (sr_id r) "doc1" =
    (JObj [("error", JStr "Dokumen tidak ditemukan")], 404) /\
  get_history_doc t' (sr_id r) "doc2" =
    (JObj [("error", JStr "Dokumen tidak ditemukan")], 404).
Proof.
  intros Hok Hr t'. set (sid := row_session_id (sr_row r)) in *.
  pose proof (delete_session_spec t sid) as Hdel. cbv zeta in Hdel.
  destruct Hdel as (Hmem & Hseq & _).
  pose proof (delete_session_ok t sid Hok) as Hok1.
  destruct (store_rows_spec clock written _ Hok1) as (_ & _ & Hin).
  assert (Hno : forall x, In x (t_rows t') -> sr_id x <> sr_id r).
  { intros x Hx Heq. destruct (Hin x Hx) as [Hold|Hnew].
    - apply Hmem in Hold. destruct Hold as [Hold Hsid].
      destruct Hok as [Hnodup _].
      pose proof (NoDup_map_inj_in sr_id _ x r Hnodup Hold Hr Heq) as ->.
      now apply Hsid.
    - rewrite Hseq in Hnew. destruct Hok as [_ Hrange].
      specialize (Hrange r Hr). lia. }
  unfold get_history_doc. cbn [String.eqb orb negb].
  rewrite (find_no_id _ _ Hno). split; reflexivity.
Qed.

Lemma deleted_ids_are_not_reused_witness :
  get_history_doc
    (store_rows (fun _ => "2024-01-02 00:00:00") [Row "s1" "c" "d" "z" "w" 0]
       (snd (delete_session
               (sql_insert (fun _ => "2024-01-01 00:00:00")
                  (Row "s0" "a" "b" "x" "y" 0) (init_db None)) "s0")))
    1 "doc1" =
  (JObj [("error", JStr "Dokumen tidak ditemukan")], 404).
Proof.
  destruct (deleted_ids_are_not_reused (fun _ => "2024-01-02 00:00:00")
              (sql_insert (fun _ => "2024-01-01 00:00:00")
                 (Row "s0" "a" "b" "x" "y" 0) (init_db None))
              (StoredRow 1 (Row "s0" "a" "b" "x" "y" 0) "2024-01-01 00:00:00")
              [Row "s1" "c" "d" "z" "w" 0]) as [H1 _].
  - apply sql_insert_ok. split; [constructor|intros r []].
  - left. reflexivity.
  - exact H1.
Defined.

(** ** The history: grouping and order *)

Lemma dict_mem_In (key : string) (sessions : list (string * session_entry)) :
  dict_mem key sessions = true <-> In key (map fst sessions).
Proof.
  unfold dict_mem. rewrite existsb_exists, in_map_iff. split.
  - intros (p & Hp & Heq). apply String.eqb_eq in Heq. eauto.
  - intros (p & Heq & Hp). exists p. split; [exact Hp|]. now apply String.eqb_eq.
Qed.

Lemma dict_adjust_keys (f : session_entry -> session_entry) (key : string)
    (sessions : list (string * session_entry)) :
  map fst (dict_adjust f key sessions) = map fst sessions.
Proof.
  induction sessions as [|[k v] rest IH]; [reflexivity|]. cbn [dict_adjust].
  destruct (String.eqb k key); cbn [map fst]; [reflexivity|now rewrite IH].
Qed.

Lemma dict_adjust_In (f : session_entry -> session_entry) (key : string)
    (sessions : list (string * session_entry)) (p : string * session_entry) :
  List.NoDup (map fst sessions) ->
  In p (dict_adjust f key sessions) ->
  (fst p <> key /\ In p sessions) \/
  (exists v, In (key, v) sessions /\ p = (key, f v)).
Proof.
  induction sessions as [|[k v] rest IH]; [intros _ []|].
  cbn [map fst dict_adjust]. intros Hnodup Hin.
  inversion Hnodup as [|? ? Hnotin Hrest]; subst.
  destruct (String.eqb_spec k key) as [->|Hne].
  - destruct Hin as [<-|Hin].
    + right. exists v. split; [now left|reflexivity].
    + left. split; [|now right]. intros Heq. apply Hnotin. rewrite <- Heq.
      now apply in_map.
  - destruct Hin as [<-|Hin].
    + left. split; [exact Hne|now left].
    + destruct (IH Hrest Hin) as [[Hk Hp]|(v' & Hv' & ->)].
      * left. split; [exact Hk|now right].
      * right. exists v'. split; [now right|reflexivity].
Qed.

Lemma rows_of_snoc (sid : string) (seen : list stored_row) (row : stored_row) :
  rows_of sid (seen ++ [row]) =
  rows_of sid seen ++ (if in_session sid row then [row] else []).
Proof. unfold rows_of. rewrite List.filter_app. reflexivity. Qed.

Lemma rows_of_none (sid : string) (rows : list stored_row) :
  (forall r, In r rows -> row_session_id (sr_row r) <> sid) -> rows_of sid rows = [].
Proof.
  intros Hno. unfold rows_of. induction rows as [|x rows IH]; [reflexivity|].
  cbn [List.filter]. destruct (in_session sid x) eqn:Hx.
  - apply in_session_iff in Hx. exfalso. apply (Hno x); [now left|exact Hx].
  - apply IH. intros r Hr. apply Hno. now right.
Qed.

Lemma group_step (seen : list stored_row) (sessions : list (string * session_entry))
    (row : stored_row) :
  group_inv seen sessions ->
  let sid := row_session_id (sr_row row) in
  group_inv (seen ++ [row])
    (dict_adjust (append_result row) sid
       (if dict_mem sid sessions then sessions
        else sessions ++ [(sid, SessionEntry sid (sr_checked_at row) [])])).
Proof.
  intros (Hnodup & Hentries & Hseen) sid.
  set (S0 := if dict_mem sid sessions then sessions
             else sessions ++ [(sid, SessionEntry sid (sr_checked_at row) [])]).
  assert (Hrow : in_session sid row = true) by now apply in_session_iff.
  assert (Hkeys0 : List.NoDup (map fst S0) /\
                   (forall key, In key (map fst sessions) -> In key (map fst S0)) /\
                   In sid (map fst S0)).
  { unfold S0. destruct (dict_mem sid sessions) eqn:Hmem.
    - apply dict_mem_In in Hmem. tauto.
    - assert (Hnot : ~ In sid (map fst sessions)).
      { intros Hin. apply dict_mem_In in Hin. congruence. }
      rewrite map_app. cbn [map fst]. split; [now apply NoDup_snoc|].
      split; intros; apply in_app_iff; [now left|right; now left]. }
  destruct Hkeys0 as (Hnodup0 & Hsub & Hsid).
  split; [|split].
  - now rewrite dict_adjust_keys.
  - intros p Hp. apply (dict_adjust_In _ _ _ _ Hnodup0) in Hp.
    destruct Hp as [[Hne Hp]|(v & Hv & ->)].
    + assert (Hold : In p sessions).
      { unfold S0 in Hp. destruct (dict_mem sid sessions); [exact Hp|].
        apply in_app_iff in Hp. destruct Hp as [Hp|[<-|[]]]; [exact Hp|].
        now contradiction Hne. }
      destruct (Hentries p Hold) as (Hid & Hres & r & rest & Hhead & Hck).
      assert (Hother : in_session (fst p) row = false).
      { destruct (in_session (fst p) row) eqn:E; [|reflexivity].
        apply in_session_iff in E. now contradiction Hne. }
      unfold entry_ok. rewrite rows_of_snoc, Hother, app_nil_r. eauto 6.
    + unfold entry_ok. cbn [fst snd append_result se_session_id se_results se_checked_at].
      rewrite rows_of_snoc, Hrow, map_app. cbn [map].
      assert (Hcases : In (sid, v) sessions \/
                       (v = SessionEntry sid (sr_checked_at row) [] /\
                        ~ In sid (map fst sessions))).
      { unfold S0 in Hv. destruct (dict_mem sid sessions) eqn:Hmem; [now left|].
        assert (Hnot : ~ In sid (map fst sessions)).
        { intros Hin. apply dict_mem_In in Hin. congruence. }
        apply in_app_iff in Hv. destruct Hv as [Hv|[Hv|[]]]; [now left|].
        right. split; [congruence|exact Hnot]. }
      destruct Hcases as [Hold|[-> Hnot]].
      * destruct (Hentries _ Hold) as (Hid & Hres & r & rest & Hhead & Hck).
        cbn [fst snd] in Hid, Hres, Hhead, Hck.
        split; [exact Hid|]. split; [now rewrite Hres|].
        exists r, (rest ++ [row]). rewrite Hhead. split; [reflexivity|exact Hck].
      * cbn [se_session_id se_results se_checked_at].
        rewrite rows_of_none.
        -- split; [reflexivity|]. split; [reflexivity|]. exists row, []. tauto.
        -- intros r Hr Heq. apply Hnot. rewrite <- Heq. now apply Hseen.
  - intros r Hr. rewrite dict_adjust_keys. apply in_app_iff in Hr.
    destruct Hr as [Hr|[<-|[]]]; [|exact Hsid]. apply Hsub. now apply Hseen.
Qed.

Lemma group_rows_inv (rows seen : list stored_row)
    (sessions : list (string * session_entry)) :
  group_inv seen sessions -> group_inv (seen ++ rows) (group_rows rows sessions).
Proof.
  revert seen sessions. induction rows as [|row rows IH]; intros seen sessions Hinv.
  - now rewrite app_nil_r.
  - cbn [group_rows].
    replace (seen ++ row :: rows) with ((seen ++ [row]) ++ rows)
      by (now rewrite <- app_assoc).
    apply IH. now apply group_step.
Qed.

Lemma group_rows_ok (rows : list stored_row) : group_inv rows (group_rows rows []).
Proof.
  apply (group_rows_inv rows [] []). split; [constructor|]. split; intros ? [].
Qed.

Lemma insert_desc_perm (e : session_entry) (l : list session_entry) :
  Permutation (e :: l) (insert_desc e l).
Proof.
  induction l as [|x l IH]; cbn [insert_desc]; [reflexivity|].
  destruct (String.ltb (se_session_id e) (se_session_id x)); [|reflexivity].
  rewrite perm_swap. now apply perm_skip.
Qed.

Lemma sort_desc_perm (l : list session_entry) : Permutation l (sort_desc l).
Proof.
  induction l as [|x l IH]; cbn [sort_desc fold_right]; [reflexivity|].
  fold (sort_desc l). rewrite <- insert_desc_perm. now apply perm_skip.
Qed.

Lemma insert_desc_sorted (e : session_entry) (l : list session_entry) :
  StronglySorted session_desc l -> StronglySorted session_desc (insert_desc e l).
Proof.
  induction 1 as [|x l Hs IH Hx]; cbn [insert_desc]; [repeat constructor|].
  destruct (String.ltb (se_session_id e) (se_session_id x)) eqn:Hlt.
  - constructor; [exact IH|].
    apply List.Forall_forall. intros y Hy.
    apply (Permutation_in _ (Permutation_sym (insert_desc_perm e l))) in Hy.
    destruct Hy as [<-|Hy].
    + unfold session_desc. now apply string_ltb_leb.
    + rewrite List.Forall_forall in Hx. now apply Hx.
  - constructor; [now constructor|].
    assert (Hxe : session_desc e x) by (now apply string_not_ltb_leb).
    constructor; [exact Hxe|].
    apply List.Forall_forall. intros y Hy. rewrite List.Forall_forall in Hx.
    unfold session_desc in *. eapply string_leb_trans; [now apply Hx|exact Hxe].
Qed.

Lemma sort_desc_sorted (l : list session_entry) : StronglySorted session_desc (sort_desc l).
Proof.
  induction l as [|x l IH]; cbn [sort_desc fold_right]; [constructor|].
  now apply insert_desc_sorted.
Qed.

Lemma sorted_distinct_strict (l : list session_entry) :
  StronglySorted session_desc l -> List.NoDup (map se_session_id l) ->
  StronglySorted session_strictly_desc l.
Proof.
  induction 1 as [|x l Hs IH Hx]; cbn [map]; intros Hnodup; [constructor|].
  inversion Hnodup as [|? ? Hnotin Hrest]; subst.
  constructor; [now apply IH|].
  apply List.Forall_forall. intros y Hy. rewrite List.Forall_forall in Hx.
  specialize (Hx y Hy). unfold session_desc in Hx. unfold session_strictly_desc.
  apply string_leb_cases in Hx. destruct Hx as [Hlt|Heq].
  - unfold String.ltb. now rewrite Hlt.
  - exfalso. apply Hnotin. rewrite <- Heq. now apply in_map.
Qed.

Lemma group_rows_entry_keys (rows : list stored_row) :
  map se_session_id (map snd (group_rows rows [])) = map fst (group_rows rows []).
Proof.
  destruct (group_rows_ok rows) as (_ & Hentries & _).
  induction (group_rows rows []) as [|p l IH]; [reflexivity|]. cbn [map].
  destruct (Hentries p) as (Hid & _); [now left|]. rewrite Hid. f_equal.
  apply IH. intros q Hq. apply Hentries. now right.
Qed.

Lemma history_of_spec (rows : list stored_row) :
  let history := history_of rows in
  StronglySorted session_strictly_desc history /\
  (forall sid, (exists e, In e history /\ se_session_id e = sid) <->
               (exists r, In r rows /\ row_session_id (sr_row r) = sid)) /\
  (forall e, In e history ->
     se_results e = map history_result (rows_of (se_session_id e) rows) /\
     se_results e <> []).
Proof.
  cbv zeta. unfold history_of.
  destruct (group_rows_ok rows) as (Hnodup & Hentries & Hseen).
  pose proof (sort_desc_perm (map snd (group_rows rows []))) as Hperm.
  assert (Hentry : forall e, In e (sort_desc (map snd (group_rows rows []))) ->
                   In (se_session_id e, e) (group_rows rows [])).
  { intros e He. apply (Permutation_in _ (Permutation_sym Hperm)) in He.
    apply in_map_iff in He. destruct He as ([k v] & <- & Hp).
    destruct (Hentries _ Hp) as (Hid & _). cbn [fst snd] in *. now rewrite Hid. }
  split; [|split].
  - apply sorted_distinct_strict; [apply sort_desc_sorted|].
    apply (Permutation_NoDup (Permutation_map se_session_id Hperm)).
    now rewrite group_rows_entry_keys.
  - intros sid. split.
    + intros (e & He & <-). apply Hentry in He.
      destruct (Hentries _ He) as (_ & _ & r & rest & Hhead & _). cbn [fst] in Hhead.
      exists r. assert (Hr : In r (rows_of (se_session_id e) rows))
        by (rewrite Hhead; now left).
      apply filter_In in Hr. destruct Hr as [Hr Hs]. apply in_session_iff in Hs. tauto.
    + intros (r & Hr & <-). apply Hseen in Hr. apply in_map_iff in Hr.
      destruct Hr as ([k v] & Hk & Hp). cbn [fst] in Hk. subst k.
      exists v. split.
      * apply (Permutation_in _ Hperm). apply in_map_iff. now exists (row_session_id (sr_row r), v).
      * now destruct (Hentries _ Hp) as (Hid & _).
  - intros e He. apply Hentry in He.
    destruct (Hentries _ He) as (_ & Hres & r & rest & Hhead & _).
    cbn [fst snd] in Hres, Hhead. split; [exact Hres|].
    rewrite Hres, Hhead. discriminate.
Qed.

(** X16. The history lists every session that has a row exactly once, in
    strictly descending order of the session ids, and gives each session
    the results of precisely its own rows, in the order they were fetched;
    no session is listed without a result. *)
Theorem history_groups_rows_by_session (rows : list stored_row) :
  let history := history_of rows in
  StronglySorted session_strictly_desc history /\
  (forall sid, (exists e, In e history /\ se_session_id e = sid) <->
               (exists r, In r rows /\ row_session_id (sr_row r) = sid)) /\
  (forall e, In e history ->
     se_results e = map history_result (rows_of (se_session_id e) rows) /\
     se_results e <> []).
Proof. apply history_of_spec. Qed.

Lemma sorted_filter_head {A : Type} (R : A -> A -> Prop) (f : A -> bool)
    (l : list A) (x : A) (rest : list A) :
  StronglySorted R l -> List.filter f l = x :: rest ->
  forall y, In y rest -> R x y.
Proof.
  induction 1 as [|h l Hs IH Hh]; cbn [List.filter]; [discriminate|].
  destruct (f h).
  - intros [= -> <-] y Hy. apply filter_In in Hy.
    rewrite List.Forall_forall in Hh. now apply Hh.
  - exact IH.
Qed.

(** X17. Because the rows are fetched with [checked_at] descending, the
    time stamp shown for a session is the latest one among its rows in
    the table. *)
Theorem history_shows_latest_time_stamp
    (t : table) (rows : list stored_row) (e : session_entry) :
  fetched_by_checked_at_desc t rows ->
  In e (history_of rows) ->
  (exists r, In r (t_rows t) /\ row_session_id (sr_row r) = se_session_id e /\
             sr_checked_at r = se_checked_at e) /\
  (forall r, In r (t_rows t) -> row_session_id (sr_row r) = se_session_id e ->
             String.leb (sr_checked_at r) (se_checked_at e) = true).
Proof.
  intros [Hperm Hsorted] He. unfold history_of in He.
  destruct (group_rows_ok rows) as (_ & Hentries & _).
  apply (Permutation_in _ (Permutation_sym (sort_desc_perm _))) in He.
  apply in_map_iff in He. destruct He as ([k v] & <- & Hp).
  destruct (Hentries _ Hp) as (Hid & _ & r0 & rest & Hhead & Hck).
  cbn [fst snd] in *. subst k.
  assert (Hr0 : In r0 (rows_of (se_session_id v) rows)) by (rewrite Hhead; now left).
  apply filter_In in Hr0. destruct Hr0 as [Hr0 Hs0]. apply in_session_iff in Hs0.
  split.
  - exists r0. split; [|split; [exact Hs0|now symmetry]].
    now apply (Permutation_in _ (Permutation_sym Hperm)).
  - intros r Hr Hs. apply (Permutation_in _ Hperm) in Hr.
    assert (Hin : In r (rows_of (se_session_id v) rows)).
    { apply filter_In. split; [exact Hr|]. now apply in_session_iff. }
    rewrite Hhead in Hin. rewrite Hck. destruct Hin as [<-|Hin].
    + apply string_leb_refl.
    + exact (sorted_filter_head checked_at_desc _ _ _ _ Hsorted Hhead r Hin).
Qed.

Lemma history_shows_latest_time_stamp_witness :
  exists r,
    In r [StoredRow 1 (Row "s0" "a" "b" "x" "y" 0) "2024-01-01 10:00:00";
          StoredRow 2 (Row "s0" "a" "c" "x" "z" 0) "2024-01-01 11:00:00"] /\
    sr_checked_at r = "2024-01-01 11:00:00".
Proof.
  destruct (history_shows_latest_time_stamp
              (Table [StoredRow 1 (Row "s0" "a" "b" "x" "y" 0) "2024-01-01 10:00:00";
                      StoredRow 2 (Row "s0" "a" "c" "x" "z" 0) "2024-01-01 11:00:00"] 2)
              [StoredRow 2 (Row "s0" "a" "c" "x" "z" 0) "2024-01-01 11:00:00";
               StoredRow 1 (Row "s0" "a" "b" "x" "y" 0) "2024-01-01 10:00:00"]
              (SessionEntry "s0" "2024-01-01 11:00:00"
                 [history_result (StoredRow 2 (Row "s0" "a" "c" "x" "z" 0) "2024-01-01 11:00:00");
                  history_result (StoredRow 1 (Row "s0" "a" "b" "x" "y" 0) "2024-01-01 10:00:00")]))
    as [(r & Hin & _ & Hck) _].
  - split; [apply perm_swap|]. repeat constructor.
  - left. reflexivity.
  - exists r. split; [exact Hin|exact Hck].
Defined.

(** ** A request, the history and the deletion together *)

Lemma store_rows_appends (clock : Z -> string) (written : list row) (t : table) :
  exists new,
    t_rows (store_rows clock written t) = t_rows t ++ new /\
    map sr_row new = written.
Proof.
  revert t. induction written as [|r written IH]; intros t; cbn [store_rows fold_left].
  - exists []. now rewrite app_nil_r.
  - fold (store_rows clock written (sql_insert clock r t)).
    destruct (IH (sql_insert clock r t)) as (new & Hrows & Hnew).
    unfold sql_insert in Hrows at 2. cbn [t_rows] in Hrows.
    eexists (_ :: new). rewrite Hrows, <- app_assoc. cbn [app map sr_row].
    split; [reflexivity|]. now rewrite Hnew.
Qed.

Lemma rows_of_all (sid : string) (rows : list stored_row) :
  (forall r, In r rows -> row_session_id (sr_row r) = sid) ->
  rows_of sid rows = rows /\
  List.filter (fun r => negb (in_session sid r)) rows = [].
Proof.
  intros Hall. unfold rows_of. induction rows as [|x rows IH]; [split; reflexivity|].
  cbn [List.filter].
  assert (Hx : in_session sid x = true) by (apply in_session_iff, Hall; now left).
  rewrite Hx. cbn [negb].
  destruct IH as [IH1 IH2]; [intros r Hr; apply Hall; now right|].
  now rewrite IH1, IH2.
Qed.

Lemma rows_of_perm_length (sid : string) (l l' : list stored_row) :
  Permutation l l' -> length (rows_of sid l) = length (rows_of sid l').
Proof.
  unfold rows_of. induction 1 as [|x l l' _ IH|x y l|l l' l'' _ IH1 _ IH2];
    cbn [List.filter].
  - reflexivity.
  - destruct (in_session sid x); cbn [length]; now rewrite IH.
  - destruct (in_session sid x), (in_session sid y); reflexivity.
  - now rewrite IH1.
Qed.

(** What a request with window_size >= 1 leaves in the table: the old
    rows followed by one new row per result, all of the request's session. *)
Lemma handle_plagiarism_run (clock : Z -> string) (sid : string)
    (documents : list document) (k w : Z) (t : table) :
  1 <= w ->
  exists results new,
    handle_plagiarism clock sid documents k w t =
      (Ok results, store_rows clock (map (row_of_result documents) results) t) /\
    t_rows (store_rows clock (map (row_of_result documents) results) t) =
      t_rows t ++ new /\
    (forall r, In r new -> row_session_id (sr_row r) = sid) /\
    length new = (length documents * (length documents - 1) / 2)%nat /\
    length results = length new.
Proof.
  intros Hw. destruct (detect_plagiarism_run sid documents k w [] Hw)
    as (results & Hrun & Hsid & Hlen).
  destruct (store_rows_appends clock (map (row_of_result documents) results) t)
    as (new & Hrows & Hnew).
  exists results, new. unfold handle_plagiarism. rewrite Hrun. cbn [app].
  split; [reflexivity|]. split; [exact Hrows|].
  assert (Hlen' : length new = length results).
  { rewrite <- (length_map sr_row), Hnew. apply length_map. }
  split; [|split; [now rewrite Hlen'|now symmetry]].
  intros r Hr. apply (in_map sr_row) in Hr. rewrite Hnew in Hr.
  apply in_map_iff in Hr. destruct Hr as (res & <- & Hres).
  cbn [row_of_result row_session_id]. now apply Hsid.
Qed.

(** X18. A request with window_size >= 1 and at least two documents shows
    up in the history under its session id, with one result more per pair
    than the session had before: N * (N - 1) / 2 results when the session
    id is new. *)
Theorem request_is_listed_in_history
    (clock : Z -> string) (sid : string) (documents : list document) (k w : Z)
    (t : table) (rows : list stored_row) :
  1 <= w -> (2 <= length documents)%nat ->
  fetched_by_checked_at_desc (snd (handle_plagiarism clock sid documents k w t)) rows ->
  exists results e,
    fst (handle_plagiarism clock sid documents k w t) = Ok results /\
    length results = (length documents * (length documents - 1) / 2)%nat /\
    In e (history_of rows) /\ se_session_id e = sid /\
    length (se_results e) = (length (rows_of sid (t_rows t)) + length results)%nat.
Proof.
  intros Hw HN [Hperm _].
  destruct (handle_plagiarism_run clock sid documents k w t Hw)
    as (results & new & Hrun & Hrows & Hsid & Hlen & Hres).
  rewrite Hrun in Hperm |- *. cbn [fst snd] in Hperm |- *. rewrite Hrows in Hperm.
  assert (Hpos : new <> []).
  { intros E. rewrite E in Hlen. cbn [length] in Hlen.
    destruct documents as [|x [|y l]]; cbn [length] in HN; try lia.
    symmetry in Hlen. apply Nat.div_small_iff in Hlen; [|lia].
    cbn [length] in Hlen. nia. }
  destruct new as [|r0 new']; [congruence|].
  destruct (history_of_spec rows) as (_ & Hsessions & Hentries). cbv zeta in *.
  destruct (proj2 (Hsessions sid)) as (e & He & Hid).
  { exists r0. split; [|apply Hsid; now left].
    apply (Permutation_in _ Hperm). apply in_app_iff. right. now left. }
  exists results, e. split; [reflexivity|]. split; [now rewrite Hres|].
  split; [exact He|]. split; [exact Hid|].
  destruct (Hentries e He) as [Hresults _]. rewrite Hresults, length_map, Hid.
  rewrite <- (rows_of_perm_length sid _ _ Hperm).
  unfold rows_of at 1. rewrite List.filter_app, length_app.
  fold (rows_of sid (t_rows t)) (rows_of sid (r0 :: new')).
  destruct (rows_of_all sid (r0 :: new') Hsid) as [Hall _]. now rewrite Hall, Hres.
Qed.

Lemma request_is_listed_in_history_witness :
  1 <= 4 /\ (2 <= 2)%nat /\
  exists results e,
    fst (handle_plagiarism (fun _ => "2024-01-01 10:00:00") "s0"
           [Document "a" "hello world"; Document "b" "Hello, World!"] 5 4
           (init_db None)) = Ok results /\
    length results = 1%nat /\ se_session_id e = "s0" /\
    length (se_results e) = 1%nat.
Proof.
  split; [lia|]. split; [lia|].
  destruct (request_is_listed_in_history (fun _ => "2024-01-01 10:00:00") "s0"
              [Document "a" "hello world"; Document "b" "Hello, World!"] 5 4
              (init_db None)
              (t_rows (snd (handle_plagiarism (fun _ => "2024-01-01 10:00:00") "s0"
                              [Document "a" "hello world"; Document "b" "Hello, World!"]
                              5 4 (init_db None)))))
    as (results & e & Hres & Hlen & _ & Hid & Hcount).
  - lia.
  - cbn [length]. lia.
  - split; [reflexivity|]. vm_compute. repeat constructor.
  - exists results, e. split; [exact Hres|]. split; [exact Hlen|].
    split; [exact Hid|]. rewrite Hcount, Hlen. reflexivity.
Defined.

(** X19. Deleting the session of a request whose session id was new
    restores the rows the table had before the request. With at least two
    documents the answer is 200 and its message counts N * (N - 1) / 2
    rows; with fewer nothing was stored and the answer is 404. *)
Theorem deleting_a_request_restores_the_rows
    (clock : Z -> string) (sid : string) (documents : list document) (k w : Z)
    (t : table) :
  1 <= w -> rows_of sid (t_rows t) = [] ->
  let t' := snd (handle_plagiarism clock sid documents k w t) in
  let n := (length documents * (length documents - 1) / 2)%nat in
  t_rows (snd (delete_session t' sid)) = t_rows t /\
  ((2 <= length documents)%nat ->
     fst (delete_session t' sid) =
       (JObj [("message",
               JStr (String.append (str_of_nat n)
                       (String.append " data dari session "
                          (String.append sid " berhasil dihapus"))))], 200)) /\
  ((length documents <= 1)%nat ->
     fst (delete_session t' sid) =
       (JObj [("message", JStr "Tidak ada data dengan session_id tersebut")], 404)).
Proof.
  intros Hw Hfresh. cbv zeta.
  destruct (handle_plagiarism_run clock sid documents k w t Hw)
    as (results & new & Hrun & Hrows & Hsid & Hlen & _).
  rewrite Hrun. cbn [snd]. rewrite delete_session_snd, delete_session_fst.
  cbn [t_rows]. rewrite Hrows.
  destruct (rows_of_all sid new Hsid) as [Hall Hnone].
  assert (Hcount : length (rows_of sid (t_rows t ++ new)) =
                   (length documents * (length documents - 1) / 2)%nat).
  { unfold rows_of. rewrite List.filter_app.
    fold (rows_of sid (t_rows t)) (rows_of sid new).
    now rewrite Hfresh, Hall. }
  rewrite Hcount. split; [|split].
  - rewrite List.filter_app, Hnone, app_nil_r. now apply filter_all.
  - intros HN.
    destruct (Nat.eqb_spec (length documents * (length documents - 1) / 2) 0)
      as [Hz|_]; [|reflexivity].
    exfalso. apply Nat.div_small_iff in Hz; [|lia].
    destruct documents as [|x [|y l]]; cbn [length] in *; nia.
  - intros HN.
    replace (length documents * (length documents - 1) / 2)%nat with 0%nat;
      [reflexivity|].
    destruct documents as [|x [|y l]]; cbn [length] in *; [reflexivity|reflexivity|lia].
Qed.

Lemma deleting_a_request_restores_the_rows_witness :
  1 <= 4 /\
  fst (delete_session
         (snd (handle_plagiarism (fun _ => "2024-01-01 10:00:00") "s0"
                 [Document "a" "hello world"; Document "b" "Hello, World!";
                  Document "c" "lorem ipsum dolor"] 5 4 (init_db None))) "s0") =
  (JObj [("message", JStr "3 data dari session s0 berhasil dihapus")], 200).
Proof.
  split; [lia|].
  destruct (deleting_a_request_restores_the_rows (fun _ => "2024-01-01 10:00:00") "s0"
              [Document "a" "hello world"; Document "b" "Hello, World!";
               Document "c" "lorem ipsum dolor"] 5 4 (init_db None))
    as (_ & Hmsg & _).
  - lia.
  - reflexivity.
  - apply Hmsg. cbn [length]. lia.
Defined.

(** ** The accepted parameter k = 0 *)

Lemma window_min_constant (h : string) (l : list string) :
  l <> [] -> (forall x, In x l -> x = h) -> window_min l = h.
Proof.
  intros Hne Hall. destruct (window_min_spec l Hne) as [Hin _]. now apply Hall.
Qed.

Lemma fingerprint_with_k_zero (text : string) (w : Z) :
  1 <= w -> w - 1 <= len (text_for_shingles text) ->
  exists fps,
    winnowing_fingerprint text 0 w = Ok fps /\ fps <> [] /\
    (forall x, In x fps -> x = sha256_hexdigest []).
Proof.
  intros Hw Hlen. pose proof (len_nonneg (text_for_shingles text)) as H0.
  pose proof (winnowing_fingerprint_long text 0 w ltac:(lia) Hw H0) as Hfp.
  cbv zeta in Hfp. eexists. split; [exact Hfp|]. split.
  - intros E. apply (f_equal (@length string)) in E.
    rewrite length_map, length_seq in E. cbn [length] in E. lia.
  - intros x Hx. apply in_map_iff in Hx. destruct Hx as (i & <- & _).
    apply window_min_constant.
    + intros E. apply (f_equal (@length string)) in E.
      rewrite length_map, length_seq in E. cbn [length] in E. lia.
    + intros y Hy. apply in_map_iff in Hy. destruct Hy as (j & <- & _).
      reflexivity.
Qed.

Lemma constant_list_to_set (h : string) (f : list string) :
  f <> [] -> (forall x, In x f -> x = h) -> (list_to_set f : gset string) = {[ h ]}.
Proof.
  intros Hne Hall. apply leibniz_equiv. intros x.
  rewrite elem_of_list_to_set, elem_of_singleton, list_elem_of_In. split.
  - apply Hall.
  - intros ->. destruct f as [|y f]; [congruence|]. left. apply Hall. now left.
Qed.

(** X20. With k = 0, which is accepted, every shingle is the empty string:
    any two texts with at least window_size - 1 letters get the same
    one-element fingerprint set and are reported as 100 percent similar,
    whatever they say. *)
Theorem k_zero_makes_all_texts_identical (A B : string) (w : Z) :
  1 <= w ->
  w - 1 <= len (text_for_shingles A) -> w - 1 <= len (text_for_shingles B) ->
  exists q, compare_documents A B 0 w = Ok q /\ Qeq q 100.
Proof.
  intros Hw HA HB.
  destruct (fingerprint_with_k_zero A w Hw HA) as (fA & HfA & HneA & HallA).
  destruct (fingerprint_with_k_zero B w Hw HB) as (fB & HfB & HneB & HallB).
  rewrite (compare_documents_sets _ _ _ _ _ _ HfA HfB).
  rewrite (constant_list_to_set _ fA HneA HallA), (constant_list_to_set _ fB HneB HallB).
  assert (Hne : ({[ sha256_hexdigest [] ]} : gset string) <> ∅).
  { intros E. apply (f_equal size) in E. rewrite size_singleton, size_empty in E.
    discriminate E. }
  replace (bool_decide (({[ sha256_hexdigest [] ]} : gset string) = ∅)
           || bool_decide (({[ sha256_hexdigest [] ]} : gset string) = ∅)) with false
    by (symmetry; now apply empty_guard_false).
  rewrite (idemp_L (∩)), (idemp_L (∪)), size_singleton.
  eexists. split; reflexivity.
Qed.

Lemma k_zero_makes_all_texts_identical_witness :
  1 <= 4 /\
  exists q, compare_documents "the quick brown fox" "lorem ipsum dolor sit amet" 0 4 = Ok q /\
            Qeq q 100.
Proof.
  split; [lia|].
  apply (k_zero_makes_all_texts_identical
           "the quick brown fox" "lorem ipsum dolor sit amet" 4).
  - lia.
  - vm_compute. discriminate.
  - vm_compute. discriminate.
Defined.
